(** * The tunnel segment renderer of tunnelz ([tunnelz/tunnel.py])

    A shallow embedding of [Tunnel.display] and
    [Tunnel.draw_segments_with_animations], and the properties the
    specification states about them.

    Numbers.  The module is Python 2.  Python ints are [Z], and [/] between
    two ints is floor division.  Python and numpy floats are modelled by
    exact rationals [Q]: every finite double is a rational, and the
    arithmetic operations are the exact ones, so rounding, infinities and
    NaN are outside this model.  Float literals are read as the decimal
    fractions they denote; [math.pi] is the double it is.

    Vectors.  One-dimensional numpy arrays are lists; elementwise
    operations are maps and zips, [izip] stops at its shortest argument.

    Collaborators.  The modules [animation], [geometry] and [waveforms] are
    not among the sources: the animation sampling functions, the sawtooth
    waveform and the geometry constants are parameters of the model. *)

From stdpp Require Import base list gmap strings.
From Stdlib Require Import ZArith QArith Qround Qabs Lia Lqa Permutation.

Local Open Scope Z_scope.

(** ** Python and numpy primitives *)

(** [int(x)] of a float: truncation toward zero. *)
Definition py_int (x : Q) : Z := Z.quot (Qnum x) (Zpos (Qden x)).

(** [round(x)], to the nearest integer, halves away from zero. *)
Definition py_round (x : Q) : Z :=
  if Qle_bool 0 x then Qfloor (x + (1 # 2))%Q else Qceiling (x - (1 # 2))%Q.

(** [x % m] on floats: the remainder takes the sign of the divisor,
    [x - m * floor (x / m)]. *)
Definition py_mod (x m : Q) : Q := (x - m * inject_Z (Qfloor (x / m)))%Q.

(** numpy's [%] on integer arrays, one element: floored remainder, and 0
    (with a warning, no exception) for a zero divisor. *)
Definition np_mod (a b : Z) : Z := if b =? 0 then 0 else a mod b.

(** [xrange(n)]: 0, 1, ..., n-1; empty when [n <= 0]. *)
Definition xrange (n : Z) : list Z := map Z.of_nat (seq 0 (Z.to_nat n)).

(** [np.zeros(shape, float)] for a one-dimensional shape. *)
Definition np_zeros (n : nat) : list Q := replicate n 0%Q.

(** Elementwise [u + v] and [u * v] of two arrays of one shape. *)
Definition vec_add (u v : list Q) : list Q := zip_with Qplus u v.
Definition vec_mul (u v : list Q) : list Q := zip_with Qmult u v.

(** [u + c] with the scalar [c] broadcast. *)
Definition vec_add_scalar (u : list Q) (c : Q) : list Q :=
  map (fun x => (x + c)%Q) u.

(** ** Constants of [tunnel.py] *)

Definition MAX_RAD_MULT : Q := 2.
Definition MAX_ELLIPSE_ASPECT : Q := 2.

(** [math.pi]: the double 0x1.921fb54442d18p+1. *)
Definition pi : Q := 884279719003555 # 281474976710656.
Definition TWOPI : Q := (2 * pi)%Q.

Definition n_anim : nat := 4.
Definition rot_speed_scale : Q := 155 # 1000.
Definition blacking_scale : Z := 4.

(** ** Data model *)

(** Modelled from the spec: the [animation] module is not among the sources.
    [AnimationTarget] is the closed enumeration of section 3 of the
    specification; [target] is an ordinary Python attribute compared with
    [==], so any other value it may hold is [OtherTarget]. *)
Inductive AnimationTarget : Type :=
  | Rotation | Ellipse | Thickness | Radius | Color | ColorSpread
  | ColorPeriodicity | ColorSaturation | PositionX | PositionY
  | OtherTarget (tag : Z).

#[global] Instance AnimationTarget_eq_dec : EqDecision AnimationTarget.
Proof. solve_decision. Defined.

(** Modelled from the spec: an animation channel is a routing target and an
    internal phase and configuration state, opaque to the renderer. *)
Record Animation (St : Type) : Type := mkAnimation {
  target : AnimationTarget;
  anim_state : St
}.
Arguments mkAnimation {St} _ _.
Arguments target {St} _.
Arguments anim_state {St} _.

(** Modelled from the spec: the [geometry] module is not among the sources;
    these are the fields section 6 lists.  Pixel positions and sizes are
    Python ints. *)
Record Geometry : Type := mkGeometry {
  x_center : Z;
  y_center : Z;
  x_size : Z;
  y_size : Z;
  max_radius : Q;
  thickness_scale : Q;
  max_x_offset : Z;
  max_y_offset : Z;
  x_nudge : Z;
  y_nudge : Z
}.

(** The attributes [Tunnel.__init__] sets. *)
Record Tunnel (St : Type) : Type := mkTunnel {
  rot_speed : Q;
  thickness : Q;
  radius : Q;
  ellipse_aspect : Q;
  col_center : Q;
  col_width : Q;
  col_spread : Q;
  col_sat : Q;
  segs : Z;
  blacking : Z;
  curr_angle : Q;
  x_offset : Z;
  y_offset : Z;
  anims : list (Animation St)
}.
Arguments mkTunnel {St}.
Arguments rot_speed {St} _.
Arguments thickness {St} _.
Arguments radius {St} _.
Arguments ellipse_aspect {St} _.
Arguments col_center {St} _.
Arguments col_width {St} _.
Arguments col_spread {St} _.
Arguments col_sat {St} _.
Arguments segs {St} _.
Arguments blacking {St} _.
Arguments curr_angle {St} _.
Arguments x_offset {St} _.
Arguments y_offset {St} _.
Arguments anims {St} _.

(** The tuple handed to [dc_agg.draw_arc], in its order. *)
Record DrawCommand : Type := mkDrawCommand {
  dc_level : Z;
  dc_stroke : Q;
  dc_hue : Q;
  dc_sat : Q;
  dc_val : Z;
  dc_x : Z;
  dc_y : Z;
  dc_rad_x : Z;
  dc_rad_y : Z;
  dc_start : Q;
  dc_stop : Q
}.

(** What a call can raise. *)
Inductive exn : Type := ZeroDivisionError.

Inductive result (A : Type) : Type :=
  | Ok (a : A)
  | Raise (e : exn).
Arguments Ok {A} _.
Arguments Raise {A} _.

(** The commands a call handed to the aggregator; none when it raised (the
    only raising statement precedes every [draw_arc]). *)
Definition emitted (r : result (list DrawCommand)) : list DrawCommand :=
  match r with Ok cmds => cmds | Raise _ => [] end.

(** The accumulators of [draw_segments_with_animations] (lines 179-186). *)
Record Adjust : Type := mkAdjust {
  rad_adjust : list Q;
  thickness_adjust : list Q;
  col_center_adjust : list Q;
  col_width_adjust : list Q;
  col_period_adjust : list Q;
  col_sat_adjust : list Q;
  x_adjust : Q;
  y_adjust : Q
}.

(** ** [Tunnel.draw_segments_with_animations], lines 159-175: the segments
    the blacking parameter leaves to draw. *)
Definition select_segments (blacking0 n_segs : Z) : list Z :=
  let seg_num := xrange n_segs in
  let blacking1 := if blacking0 =? -1 then 0 else blacking0 in
  if 0 <=? blacking1 then
    let blacking2 := Z.max blacking0 1 in
    filter (fun i => np_mod i (Z.abs blacking2) = 0) seg_num
  else
    filter (fun i => np_mod i (Z.abs blacking1) <> 0) seg_num.

(** [izip] of the five (mask) or seven (colour) arrays, one [draw_arc]
    per tuple (lines 227-240 and 254-268). *)
Fixpoint draw_mask_arcs (x_c y_c : Z)
    (stroke_weight rad_x_vec rad_y_vec seg_angle stop : list Q)
    : list DrawCommand :=
  match stroke_weight, rad_x_vec, rad_y_vec, seg_angle, stop with
  | strk :: stroke_weight', r_x :: rad_x_vec', r_y :: rad_y_vec',
    start_angle :: seg_angle', stop_angle :: stop' =>
      mkDrawCommand 255 strk 0 0 0 x_c y_c (py_int r_x) (py_int r_y)
        start_angle stop_angle
      :: draw_mask_arcs x_c y_c stroke_weight' rad_x_vec' rad_y_vec'
           seg_angle' stop'
  | _, _, _, _, _ => []
  end.

Fixpoint draw_colour_arcs (level_scale x_c y_c : Z)
    (hue sat stroke_weight rad_x_vec rad_y_vec seg_angle stop : list Q)
    : list DrawCommand :=
  match hue, sat, stroke_weight, rad_x_vec, rad_y_vec, seg_angle, stop with
  | h :: hue', s :: sat', strk :: stroke_weight', r_x :: rad_x_vec',
    r_y :: rad_y_vec', start_angle :: seg_angle', stop_angle :: stop' =>
      mkDrawCommand level_scale strk h s 255 x_c y_c (py_int r_x) (py_int r_y)
        start_angle stop_angle
      :: draw_colour_arcs level_scale x_c y_c hue' sat' stroke_weight'
           rad_x_vec' rad_y_vec' seg_angle' stop'
  | _, _, _, _, _, _, _ => []
  end.

(** Every accumulator array has the shape of the selected segments. *)
Definition adjust_shape (n : nat) (acc : Adjust) : Prop :=
  length (rad_adjust acc) = n /\ length (thickness_adjust acc) = n /\
  length (col_center_adjust acc) = n /\ length (col_width_adjust acc) = n /\
  length (col_period_adjust acc) = n /\ length (col_sat_adjust acc) = n.


(** The divisor of the blacking test: [abs(blacking)] as line 170 or line
    172 evaluates it, after the reassignments of lines 163-168. *)
Definition blacking_divisor (blacking0 : Z) : Z :=
  let blacking1 := if blacking0 =? -1 then 0 else blacking0 in
  if 0 <=? blacking1 then Z.abs (Z.max blacking0 1) else Z.abs blacking1.


(** The tunnel with another bank of channels. *)
Definition with_anims {St : Type} (self : Tunnel St)
    (channels : list (Animation St)) : Tunnel St :=
  mkTunnel (rot_speed self) (thickness self) (radius self)
    (ellipse_aspect self) (col_center self) (col_width self)
    (col_spread self) (col_sat self) (segs self) (blacking self)
    (curr_angle self) (x_offset self) (y_offset self) channels.


(** The part of a draw command that places and shapes the arc. *)
Definition arc_geometry (c : DrawCommand) : Q * Z * Z * Z * Z * Q * Q :=
  (dc_stroke c, dc_x c, dc_y c, dc_rad_x c, dc_rad_y c, dc_start c,
   dc_stop c).

(** ** A concrete stage, used to run the model

    A 1280 by 720 screen; channels that hold their value ([steady_*]: the
    state of a channel is the value it samples to, at every angle), and a
    sawtooth of period 1 rising from 0. *)
Definition stage : Geometry :=
  mkGeometry 640 360 1280 720 360 (1 # 2) 640 360 10 10.

Definition steady_update (s : Q) : Q := s.
Definition steady_value (s : Q) (angle_offset : Q) : Q := s.
Definition steady_value_vector (s : Q) (angle_offsets : list Q) : list Q :=
  map (fun _ => s) angle_offsets.
Definition ramp_vector (angles : list Q) (smoothing : Q) : list Q :=
  map (fun a => (a - inject_Z (Qfloor a))%Q) angles.

(** The tunnel [Tunnel.__init__] builds, around the given channels. *)
Definition new_tunnel {St : Type} (channels : list (Animation St))
    : Tunnel St :=
  mkTunnel 0 (25 # 100) (5 # 10) (5 # 10) 0 0 0 0 126 2 0 0 0 channels.

(** A tunnel with no segment at all. *)
Definition zero_segment_tunnel : Tunnel Q :=
  mkTunnel 0 (25 # 100) (5 # 10) (5 # 10) 0 0 0 0 0 2 0 0 0 [].

(** A tunnel pushed to the right by one channel routed to PositionX. *)
Definition nudged_tunnel : Tunnel Q :=
  new_tunnel [mkAnimation PositionX (15 # 100)%Q].

(** A tunnel whose radius does not fall on a whole pixel. *)
Definition narrow_tunnel : Tunnel Q :=
  mkTunnel 0 (25 # 100) (33 # 100) (5 # 10) 0 0 0 0 126 2 0 0 0 [].


Definition routed_tunnel : Tunnel Q :=
  new_tunnel [mkAnimation Radius 3%Q].

(** A tunnel with two channels routed to Radius, in slots 0 and 2. *)
Definition radius_pair_tunnel : Tunnel Q :=
  new_tunnel
    [mkAnimation Radius 3%Q; mkAnimation Color 10%Q;
     mkAnimation Radius (-7 # 2)%Q; mkAnimation Rotation 1%Q].

(** ** The other methods of [Tunnel] and [TunnelUI] *)

(** What the list and attribute operations can raise. *)
Inductive py_error : Type := IndexError | AttributeError | KeyError.

Inductive outcome (A : Type) : Type :=
  | Returns (a : A)
  | Raises (e : py_error).
Arguments Returns {A} _.
Arguments Raises {A} _.

(** The slot a Python index denotes in a list of [len] items: a negative
    index counts from the end, an index outside [[-len, len)] denotes none. *)
Definition py_slot (len : nat) (i : Z) : option nat :=
  if 0 <=? i then
    if i <? Z.of_nat len then Some (Z.to_nat i) else None
  else
    if - Z.of_nat len <=? i then Some (Z.to_nat (Z.of_nat len + i)) else None.

(** [l[i]]. *)
Definition py_getitem {A : Type} (l : list A) (i : Z) : outcome A :=
  match py_slot (length l) i with
  | Some k =>
      match l !! k with
      | Some a => Returns a
      | None => Raises IndexError
      end
  | None => Raises IndexError
  end.

(** [l[i] = x]. *)
Definition py_setitem {A : Type} (l : list A) (i : Z) (x : A)
    : outcome (list A) :=
  match py_slot (length l) i with
  | Some k => Returns (<[k := x]> l)
  | None => Raises IndexError
  end.

(** [Tunnel.get_animation] (lines 100-102). *)
Definition get_animation {St : Type} (self : Tunnel St) (anim : Z)
    : outcome (Animation St) :=
  py_getitem (anims self) anim.

(** [Tunnel.get_current_animation] (lines 104-105) and
    [Tunnel.replace_current_animation] (lines 107-109).  [curr_anim] is an
    attribute the base class [Beam] keeps; [beam.py] is not among the
    sources, so the index is an argument here. *)
Definition get_current_animation {St : Type} (curr_anim : Z)
    (self : Tunnel St) : outcome (Animation St) :=
  get_animation self curr_anim.

Definition replace_current_animation {St : Type} (curr_anim : Z)
    (new_anim : Animation St) (self : Tunnel St) : outcome (Tunnel St) :=
  match py_setitem (anims self) curr_anim new_anim with
  | Returns channels => Returns (with_anims self channels)
  | Raises e => Raises e
  end.

(** The tunnel with other offsets. *)
Definition with_offsets {St : Type} (self : Tunnel St) (x y : Z)
    : Tunnel St :=
  mkTunnel (rot_speed self) (thickness self) (radius self)
    (ellipse_aspect self) (col_center self) (col_width self)
    (col_spread self) (col_sat self) (segs self) (blacking self)
    (curr_angle self) x y (anims self).

(** [TunnelUI]: the tunnel it drives and the nudges [__init__] reads from
    the geometry (lines 31-34).  The methods below write the model directly
    and call no controller, so the controllers are left out. *)
Record TunnelUI (St : Type) : Type := mkTunnelUI {
  model : Tunnel St;
  ui_x_nudge : Z;
  ui_y_nudge : Z
}.
Arguments mkTunnelUI {St} _ _ _.
Arguments model {St} _.
Arguments ui_x_nudge {St} _.
Arguments ui_y_nudge {St} _.

Definition TunnelUI_init {St : Type} (geometry : Geometry)
    (tunnel : Tunnel St) : TunnelUI St :=
  mkTunnelUI tunnel (x_nudge geometry) (y_nudge geometry).

(** Lines 36-50. *)
Definition nudge_x_pos {St : Type} (self : TunnelUI St) : TunnelUI St :=
  mkTunnelUI
    (with_offsets (model self) (x_offset (model self) + ui_x_nudge self)
       (y_offset (model self)))
    (ui_x_nudge self) (ui_y_nudge self).

Definition nudge_x_neg {St : Type} (self : TunnelUI St) : TunnelUI St :=
  mkTunnelUI
    (with_offsets (model self) (x_offset (model self) - ui_x_nudge self)
       (y_offset (model self)))
    (ui_x_nudge self) (ui_y_nudge self).

Definition nudge_y_pos {St : Type} (self : TunnelUI St) : TunnelUI St :=
  mkTunnelUI
    (with_offsets (model self) (x_offset (model self))
       (y_offset (model self) + ui_y_nudge self))
    (ui_x_nudge self) (ui_y_nudge self).

Definition nudge_y_neg {St : Type} (self : TunnelUI St) : TunnelUI St :=
  mkTunnelUI
    (with_offsets (model self) (x_offset (model self))
       (y_offset (model self) - ui_y_nudge self))
    (ui_x_nudge self) (ui_y_nudge self).

(** Lines 52-55. *)
Definition reset_beam_position {St : Type} (self : TunnelUI St)
    : TunnelUI St :=
  mkTunnelUI (with_offsets (model self) 0 0)
    (ui_x_nudge self) (ui_y_nudge self).

(** A tunnel nudged off the stage, and one with a negative segment count. *)
Definition offstage_tunnel : Tunnel Q :=
  mkTunnel 0 (25 # 100) (5 # 10) (5 # 10) 0 0 0 0 126 2 0 1000 (-1000) [].

Definition backward_tunnel : Tunnel Q :=
  mkTunnel 0 (25 # 100) (5 # 10) (5 # 10) 0 0 0 0 (-3) 2 0 0 0 [].


Definition lively_tunnel : Tunnel Q :=
  new_tunnel
    [mkAnimation Thickness 127%Q; mkAnimation Radius 3%Q;
     mkAnimation ColorSaturation 20%Q; mkAnimation Thickness (-381)%Q].

(** ** The renderer *)

Section TunnelModel.

(** Modelled from the spec: the sampling contract of an animation channel
    (section 4.1) and the waveform primitive (section 6), both outside the
    sources.  [update_state] advances a channel by one frame, [get_value]
    is its scalar sample, [get_value_vector] its vector sample, and
    [sawtooth_vector] the vectorised waveform of [waveforms.pyx]. *)
Context {St : Type}.
Variable update_state : St -> St.
Variable get_value : St -> Q -> Q.
Variable get_value_vector : St -> list Q -> list Q.
Variable sawtooth_vector : list Q -> Q -> list Q.
Variable geometry : Geometry.

(** One turn of the loop of lines 193-212. *)
Definition route_segment (rel_angle : list Q) (acc : Adjust)
    (anim : Animation St) : Adjust :=
  let st := anim_state anim in
  match target anim with
  | Thickness =>
      mkAdjust (rad_adjust acc)
        (vec_add (thickness_adjust acc) (get_value_vector st rel_angle))
        (col_center_adjust acc) (col_width_adjust acc)
        (col_period_adjust acc) (col_sat_adjust acc)
        (x_adjust acc) (y_adjust acc)
  | Radius =>
      mkAdjust (vec_add (rad_adjust acc) (get_value_vector st rel_angle))
        (thickness_adjust acc)
        (col_center_adjust acc) (col_width_adjust acc)
        (col_period_adjust acc) (col_sat_adjust acc)
        (x_adjust acc) (y_adjust acc)
  | Color =>
      mkAdjust (rad_adjust acc) (thickness_adjust acc)
        (vec_add_scalar (col_center_adjust acc) (get_value st 0))
        (col_width_adjust acc)
        (col_period_adjust acc) (col_sat_adjust acc)
        (x_adjust acc) (y_adjust acc)
  | ColorSpread =>
      mkAdjust (rad_adjust acc) (thickness_adjust acc)
        (col_center_adjust acc)
        (vec_add_scalar (col_width_adjust acc) (get_value st 0))
        (col_period_adjust acc) (col_sat_adjust acc)
        (x_adjust acc) (y_adjust acc)
  | ColorPeriodicity =>
      mkAdjust (rad_adjust acc) (thickness_adjust acc)
        (col_center_adjust acc) (col_width_adjust acc)
        (vec_add_scalar (col_period_adjust acc) (get_value st 0 / 16)%Q)
        (col_sat_adjust acc)
        (x_adjust acc) (y_adjust acc)
  | ColorSaturation =>
      mkAdjust (rad_adjust acc) (thickness_adjust acc)
        (col_center_adjust acc) (col_width_adjust acc)
        (col_period_adjust acc)
        (vec_add (col_sat_adjust acc) (get_value_vector st rel_angle))
        (x_adjust acc) (y_adjust acc)
  | PositionX =>
      mkAdjust (rad_adjust acc) (thickness_adjust acc)
        (col_center_adjust acc) (col_width_adjust acc)
        (col_period_adjust acc) (col_sat_adjust acc)
        (x_adjust acc
         + get_value st 0 * inject_Z (x_size geometry / 2) / 127)%Q
        (y_adjust acc)
  | PositionY =>
      mkAdjust (rad_adjust acc) (thickness_adjust acc)
        (col_center_adjust acc) (col_width_adjust acc)
        (col_period_adjust acc) (col_sat_adjust acc)
        (x_adjust acc)
        (y_adjust acc
         + get_value st 0 * inject_Z (y_size geometry / 2) / 127)%Q
  | Rotation | Ellipse | OtherTarget _ => acc
  end.

(** Lines 179-186: every accumulator starts at zero. *)
Definition zero_adjust (n : nat) : Adjust :=
  mkAdjust (np_zeros n) (np_zeros n) (np_zeros n) (np_zeros n)
    (np_zeros n) (np_zeros n) 0 0.

(** Lines 193-212. *)
Definition segment_adjust (rel_angle : list Q)
    (channels : list (Animation St)) : Adjust :=
  foldl (route_segment rel_angle) (zero_adjust (length rel_angle)) channels.

(** Lines 242-250. *)
Definition segment_hue (self : Tunnel St) (rel_angle : list Q) (adj : Adjust)
    : list Q :=
  let hue :=
    vec_add
      (map (fun c => (255 * col_center self + c)%Q) (col_center_adjust adj))
      (vec_mul
         (map (fun w => (127 * col_width self + w)%Q) (col_width_adjust adj))
         (sawtooth_vector
            (vec_mul rel_angle
               (map (fun p => (16 * col_spread self + p)%Q)
                  (col_period_adjust adj)))
            0)) in
  map (fun h => py_mod h 256) hue.

(** [Tunnel.draw_segments_with_animations]; the result is what reached
    [dc_agg.draw_arc] (the method itself returns an empty list). *)
Definition draw_segments_with_animations (self : Tunnel St)
    (rad_x rad_y : Q) (n_segs : Z) (as_mask : bool) (level_scale : Z)
    (thickness0 : Q) : result (list DrawCommand) :=
  let seg_num := select_segments (blacking self) n_segs in
  if segs self =? 0 then Raise ZeroDivisionError else
  let rot_interval := (TWOPI / inject_Z (segs self))%Q in
  let seg_angle :=
    map (fun i => (rot_interval * inject_Z i + curr_angle self)%Q) seg_num in
  let rel_angle := map (fun i => (rot_interval * inject_Z i)%Q) seg_num in
  let adj := segment_adjust rel_angle (anims self) in
  let stroke_weight :=
    map (fun t => Qabs (thickness0 * (1 + t / 127))%Q)
      (thickness_adjust adj) in
  let x_c := x_center geometry + x_offset self + py_int (x_adjust adj) in
  let y_c := y_center geometry + y_offset self + py_int (y_adjust adj) in
  let rad_x_vec := map (fun r => Qabs (rad_x + r)%Q) (rad_adjust adj) in
  let rad_y_vec := map (fun r => Qabs (rad_y + r)%Q) (rad_adjust adj) in
  let stop := map (fun a => (a + rot_interval)%Q) seg_angle in
  if as_mask then
    Ok (draw_mask_arcs x_c y_c stroke_weight rad_x_vec rad_y_vec
          seg_angle stop)
  else
    let hue := segment_hue self rel_angle adj in
    let sat :=
      map (fun c => (255 * col_sat self + c)%Q) (col_sat_adjust adj) in
    Ok (draw_colour_arcs level_scale x_c y_c hue sat stroke_weight
          rad_x_vec rad_y_vec seg_angle stop).

(** [anim.update_state()]: the channel's internal state moves on, its
    target stays. *)
Definition advance (anim : Animation St) : Animation St :=
  mkAnimation (target anim) (update_state (anim_state anim)).

(** One turn of the loop of lines 126-137: the channel is advanced, then its
    target is read. *)
Definition route_frame (acc : list (Animation St) * Q * Q)
    (anim : Animation St) : list (Animation St) * Q * Q :=
  let '(done, rot_adjust, ellipse_adjust) := acc in
  let anim' := advance anim in
  match target anim' with
  | Rotation =>
      (done ++ [anim'],
       (rot_adjust + get_value (anim_state anim') 0)%Q, ellipse_adjust)
  | Ellipse =>
      (done ++ [anim'],
       rot_adjust, (ellipse_adjust + get_value (anim_state anim') 0)%Q)
  | _ => (done ++ [anim'], rot_adjust, ellipse_adjust)
  end.

(** Lines 145-149: the radii and the stroke thickness handed on. *)
Definition display_radii (self : Tunnel St) (ellipse_adjust : Q)
    : Q * Q * Q :=
  let radius0 :=
    py_int (MAX_RAD_MULT * max_radius geometry * radius self)%Q in
  let thickness0 := (thickness self * thickness_scale geometry)%Q in
  let rad_x :=
    (inject_Z radius0
     * (MAX_ELLIPSE_ASPECT * (ellipse_aspect self + ellipse_adjust))
     - thickness0 / 2)%Q in
  let rad_y := (inject_Z radius0 - thickness0 / 2)%Q in
  (rad_x, rad_y, thickness0).

(** [Tunnel.display]: the tunnel as the call leaves it, and what the call
    drew or raised. *)
Definition display (level_scale : Z) (as_mask : bool) (self : Tunnel St)
    : Tunnel St * result (list DrawCommand) :=
  let x_offset' :=
    Z.min (Z.max (x_offset self) (- max_x_offset geometry))
      (max_x_offset geometry) in
  let y_offset' :=
    Z.min (Z.max (y_offset self) (- max_y_offset geometry))
      (max_y_offset geometry) in
  let '(anims', rot_adjust, ellipse_adjust) :=
    foldl route_frame ([], 0%Q, 0%Q) (anims self) in
  let curr_angle' :=
    py_mod (curr_angle self + (rot_speed self + rot_adjust) * rot_speed_scale)
      TWOPI in
  let self' :=
    mkTunnel (rot_speed self) (thickness self) (radius self)
      (ellipse_aspect self) (col_center self) (col_width self)
      (col_spread self) (col_sat self) (segs self) (blacking self)
      curr_angle' x_offset' y_offset' anims' in
  let '(rad_x, rad_y, thickness0) := display_radii self ellipse_adjust in
  (self',
   draw_segments_with_animations self' rad_x rad_y (segs self') as_mask
     level_scale thickness0).

(** ** Notions the properties are stated with *)


(** The sum, in slot order and from 0, of [sample] over the channels routed
    to [tgt]. *)
Definition channel_sum (tgt : AnimationTarget) (sample : St -> Q)
    (channels : list (Animation St)) : Q :=
  foldl (fun acc anim =>
           if decide (target anim = tgt)
           then (acc + sample (anim_state anim))%Q else acc)
    0%Q channels.

(** The elementwise sum, in slot order and from zeros, of the vector samples
    at [rel_angle] of the channels routed to [tgt]. *)
Definition channel_vector_sum (tgt : AnimationTarget) (rel_angle : list Q)
    (channels : list (Animation St)) : list Q :=
  foldl (fun acc anim =>
           if decide (target anim = tgt)
           then vec_add acc (get_value_vector (anim_state anim) rel_angle)
           else acc)
    (np_zeros (length rel_angle)) channels.

(** What the loop of lines 126-137 leaves in [rot_adjust] and in
    [ellipse_adjust]: the scalar samples of the advanced channels routed to
    [Rotation] and to [Ellipse]. *)
Definition frame_rot_adjust (self : Tunnel St) : Q :=
  channel_sum Rotation (fun st => get_value st 0)
    (map advance (anims self)).

Definition frame_ellipse_adjust (self : Tunnel St) : Q :=
  channel_sum Ellipse (fun st => get_value st 0)
    (map advance (anims self)).

(** The radii as section 4.2 of the specification words them, steps 4 and 5:
    the base radius is not truncated. *)
Definition spec_radii (self : Tunnel St) (ellipse_adjust : Q) : Q * Q * Q :=
  let base_radius := (MAX_RAD_MULT * max_radius geometry * radius self)%Q in
  let thickness_px := (thickness self * thickness_scale geometry)%Q in
  (base_radius * (MAX_ELLIPSE_ASPECT * (ellipse_aspect self + ellipse_adjust))
   - thickness_px / 2,
   base_radius - thickness_px / 2,
   thickness_px)%Q.


(** * Properties *)

(** ** Facts about the primitives *)

Lemma elem_of_xrange (n i : Z) : i ∈ xrange n <-> 0 <= i < n.
Proof.
  unfold xrange. rewrite list_elem_of_fmap. split.
  - intros (k & -> & Hk). apply elem_of_seq in Hk. lia.
  - intros Hi. exists (Z.to_nat i). split; [lia|].
    apply elem_of_seq. lia.
Qed.

Lemma np_mod_pos (a b : Z) : 0 < b -> np_mod a b = a mod b.
Proof.
  intros Hb. unfold np_mod. destruct (Z.eqb_spec b 0); [lia | reflexivity].
Qed.






Lemma length_np_zeros (n : nat) : length (np_zeros n) = n.
Proof. apply length_replicate. Qed.

Lemma length_vec_add_scalar (u : list Q) (c : Q) :
  length (vec_add_scalar u c) = length u.
Proof. apply length_map. Qed.

Lemma length_vec_add (u v : list Q) :
  length v = length u -> length (vec_add u v) = length u.
Proof. intros H. unfold vec_add. rewrite length_zip_with. lia. Qed.

Lemma length_vec_mul (u v : list Q) :
  length v = length u -> length (vec_mul u v) = length u.
Proof. intros H. unfold vec_mul. rewrite length_zip_with. lia. Qed.



(** ** Segment selection *)

(** C1.  The indices [draw_segments_with_animations] keeps for drawing are,
    among 0 .. segment_count-1: all of them when blacking is -1; those with
    [i mod max(blacking, 1) = 0] when blacking is at least 0; those with
    [i mod |blacking| <> 0] when blacking is below -1.  So 8 segments with
    blacking 2 keep 0, 2, 4, 6; 8 segments with blacking -1 keep all 8;
    9 segments with blacking -3 keep 1, 2, 4, 5, 7, 8. *)
Theorem select_segments_spec :
  (forall blacking0 segment_count i : Z,
     i ∈ select_segments blacking0 segment_count <->
     0 <= i < segment_count /\
     (if blacking0 =? -1 then True
      else if 0 <=? blacking0 then i mod Z.max blacking0 1 = 0
      else i mod Z.abs blacking0 <> 0)) /\
  select_segments 2 8 = [0; 2; 4; 6] /\
  select_segments (-1) 8 = [0; 1; 2; 3; 4; 5; 6; 7] /\
  select_segments (-3) 9 = [1; 2; 4; 5; 7; 8].
Proof.
  split; [| repeat split; reflexivity].
  intros b n i. unfold select_segments.
  destruct (Z.eqb_spec b (-1)) as [-> | Hb].
  - cbn. rewrite list_elem_of_filter, elem_of_xrange.
    change (Z.abs (-1 `max` 1)) with 1. rewrite np_mod_pos by lia.
    rewrite Z.mod_1_r. tauto.
  - destruct (Z.leb_spec 0 b) as [Hpos | Hneg];
      rewrite list_elem_of_filter, elem_of_xrange, np_mod_pos by lia.
    + rewrite Z.abs_eq by lia. tauto.
    + tauto.
Qed.

(** ** The frame loop and the state [display] leaves *)

Lemma foldl_route_frame (done : list (Animation St)) (r e : Q)
    (l : list (Animation St)) :
  foldl route_frame (done, r, e) l =
  (done ++ map advance l,
   foldl (fun acc anim =>
            if decide (target anim = Rotation)
            then (acc + get_value (anim_state anim) 0)%Q else acc)
     r (map advance l),
   foldl (fun acc anim =>
            if decide (target anim = Ellipse)
            then (acc + get_value (anim_state anim) 0)%Q else acc)
     e (map advance l)).
Proof.
  revert done r e. induction l as [|a l IH]; intros done r e.
  - cbn. rewrite app_nil_r. reflexivity.
  - cbn [foldl map]. unfold route_frame at 2.
    destruct a as [tgt st]; destruct tgt; cbn [advance target anim_state];
      rewrite IH, <- app_assoc; reflexivity.
Qed.

(** The tunnel a call leaves behind. *)
Lemma display_fst (level_scale : Z) (as_mask : bool) (self : Tunnel St) :
  fst (display level_scale as_mask self) =
  mkTunnel (rot_speed self) (thickness self) (radius self)
    (ellipse_aspect self) (col_center self) (col_width self)
    (col_spread self) (col_sat self) (segs self) (blacking self)
    (py_mod
       (curr_angle self
        + (rot_speed self + frame_rot_adjust self) * rot_speed_scale)
       TWOPI)
    (Z.min (Z.max (x_offset self) (- max_x_offset geometry))
       (max_x_offset geometry))
    (Z.min (Z.max (y_offset self) (- max_y_offset geometry))
       (max_y_offset geometry))
    (map advance (anims self)).
Proof.
  unfold display. rewrite foldl_route_frame. cbn [app].
  unfold display_radii. reflexivity.
Qed.

(** What a call draws: the segments of the tunnel it leaves behind, with
    the radii of lines 145-149. *)
Lemma display_snd (level_scale : Z) (as_mask : bool) (self : Tunnel St) :
  snd (display level_scale as_mask self) =
  draw_segments_with_animations (fst (display level_scale as_mask self))
    (fst (fst (display_radii self (frame_ellipse_adjust self))))
    (snd (fst (display_radii self (frame_ellipse_adjust self))))
    (segs self) as_mask level_scale
    (snd (display_radii self (frame_ellipse_adjust self))).
Proof.
  unfold display. rewrite foldl_route_frame. cbn [app].
  unfold display_radii. reflexivity.
Qed.


(** ** Radii *)

(** C7, amended.  The radii [display] hands to the segment renderer are
    computed from the base radius truncated to an integer:
    [base_radius = int(MAX_RAD_MULT * max_radius * radius)],
    [thickness_px = thickness * thickness_scale],
    [rad_x = base_radius * (MAX_ELLIPSE_ASPECT * (ellipse_aspect +
    ellipse_adjust)) - thickness_px / 2] and
    [rad_y = base_radius - thickness_px / 2], where [ellipse_adjust] sums
    the scalar samples of the channels routed to Ellipse. *)
Theorem display_radii_truncated (level_scale : Z) (as_mask : bool)
    (self : Tunnel St) :
  let base_radius :=
    py_int (MAX_RAD_MULT * max_radius geometry * radius self)%Q in
  let thickness_px := (thickness self * thickness_scale geometry)%Q in
  let ellipse_adjust :=
    channel_sum Ellipse (fun st => get_value st 0)
      (map advance (anims self)) in
  let rad_x :=
    (inject_Z base_radius
     * (MAX_ELLIPSE_ASPECT * (ellipse_aspect self + ellipse_adjust))
     - thickness_px / 2)%Q in
  let rad_y := (inject_Z base_radius - thickness_px / 2)%Q in
  display_radii self ellipse_adjust = (rad_x, rad_y, thickness_px) /\
  snd (display level_scale as_mask self) =
  draw_segments_with_animations (fst (display level_scale as_mask self))
    rad_x rad_y (segs self) as_mask level_scale thickness_px.
Proof.
  cbv zeta. split; [reflexivity|].
  rewrite display_snd. reflexivity.
Qed.

(** ** Division faults *)

Lemma blacking_divisor_pos (blacking0 : Z) : 1 <= blacking_divisor blacking0.
Proof.
  unfold blacking_divisor.
  destruct (Z.eqb_spec blacking0 (-1)) as [-> | Hb]; [cbn; lia|].
  destruct (Z.leb_spec 0 blacking0); lia.
Qed.

Lemma select_segments_divisor (blacking0 n_segs : Z) :
  select_segments blacking0 n_segs =
  if 0 <=? (if blacking0 =? -1 then 0 else blacking0)
  then filter (fun i => np_mod i (blacking_divisor blacking0) = 0)
         (xrange n_segs)
  else filter (fun i => np_mod i (blacking_divisor blacking0) <> 0)
         (xrange n_segs).
Proof.
  unfold select_segments, blacking_divisor.
  destruct (0 <=? (if blacking0 =? -1 then 0 else blacking0)); reflexivity.
Qed.

Lemma draw_segments_ok (self : Tunnel St) (rad_x rad_y : Q) (n_segs : Z)
    (as_mask : bool) (level_scale : Z) (thickness0 : Q) :
  segs self <> 0 ->
  exists cmds,
    draw_segments_with_animations self rad_x rad_y n_segs as_mask
      level_scale thickness0 = Ok cmds.
Proof.
  intros Hsegs. unfold draw_segments_with_animations.
  destruct (Z.eqb_spec (segs self) 0) as [? | _]; [contradiction|].
  destruct as_mask; eexists; reflexivity.
Qed.

(** C3, amended.  For every tunnel whose segment count is not 0, and every
    blacking value, [display] raises no division fault and runs to
    completion: the divisor of the blacking test is clamped to at least 1,
    and it is never zero. *)
Theorem display_no_division_fault (level_scale : Z) (as_mask : bool)
    (self : Tunnel St) :
  segs self <> 0 ->
  1 <= blacking_divisor (blacking self) /\
  (forall i, np_mod i (blacking_divisor (blacking self))
             = i mod blacking_divisor (blacking self)) /\
  exists cmds, snd (display level_scale as_mask self) = Ok cmds.
Proof.
  intros Hsegs. pose proof (blacking_divisor_pos (blacking self)) as Hd.
  split; [exact Hd|]. split.
  - intros i. apply np_mod_pos. lia.
  - rewrite display_snd. apply draw_segments_ok.
    rewrite display_fst. exact Hsegs.
Qed.

(** ** The arcs drawn *)

Lemma lookup_draw_mask_arcs (k : nat) (x_c y_c : Z) :
  forall stroke_weight rad_x_vec rad_y_vec seg_angle stop : list Q,
  draw_mask_arcs x_c y_c stroke_weight rad_x_vec rad_y_vec seg_angle stop
    !! k =
  match stroke_weight !! k, rad_x_vec !! k, rad_y_vec !! k,
        seg_angle !! k, stop !! k with
  | Some strk, Some r_x, Some r_y, Some start_angle, Some stop_angle =>
      Some (mkDrawCommand 255 strk 0 0 0 x_c y_c (py_int r_x) (py_int r_y)
              start_angle stop_angle)
  | _, _, _, _, _ => None
  end.
Proof.
  induction k as [|k IH];
    intros [|? ?] [|? ?] [|? ?] [|? ?] [|? ?]; cbn;
    try reflexivity; try apply IH; repeat case_match; reflexivity.
Qed.

Lemma lookup_draw_colour_arcs (k : nat) (level_scale x_c y_c : Z) :
  forall hue sat stroke_weight rad_x_vec rad_y_vec seg_angle stop : list Q,
  draw_colour_arcs level_scale x_c y_c hue sat stroke_weight rad_x_vec
    rad_y_vec seg_angle stop !! k =
  match hue !! k, sat !! k, stroke_weight !! k, rad_x_vec !! k,
        rad_y_vec !! k, seg_angle !! k, stop !! k with
  | Some h, Some s, Some strk, Some r_x, Some r_y, Some start_angle,
    Some stop_angle =>
      Some (mkDrawCommand level_scale strk h s 255 x_c y_c (py_int r_x)
              (py_int r_y) start_angle stop_angle)
  | _, _, _, _, _, _, _ => None
  end.
Proof.
  induction k as [|k IH];
    intros [|? ?] [|? ?] [|? ?] [|? ?] [|? ?] [|? ?] [|? ?]; cbn;
    try reflexivity; try apply IH; repeat case_match; reflexivity.
Qed.

Lemma Forall_draw_mask_arcs (P : DrawCommand -> Prop) (x_c y_c : Z)
    (stroke_weight rad_x_vec rad_y_vec seg_angle stop : list Q) :
  (forall strk r_x r_y start_angle stop_angle,
     P (mkDrawCommand 255 strk 0 0 0 x_c y_c (py_int r_x) (py_int r_y)
          start_angle stop_angle)) ->
  Forall P
    (draw_mask_arcs x_c y_c stroke_weight rad_x_vec rad_y_vec seg_angle
       stop).
Proof.
  intros HP. apply Forall_lookup. intros k c.
  rewrite lookup_draw_mask_arcs. repeat case_match; try discriminate.
  intros [= <-]. apply HP.
Qed.

Lemma Forall_draw_colour_arcs (P : DrawCommand -> Prop)
    (level_scale x_c y_c : Z)
    (hue sat stroke_weight rad_x_vec rad_y_vec seg_angle stop : list Q) :
  (forall h s strk r_x r_y start_angle stop_angle,
     h ∈ hue -> s ∈ sat ->
     P (mkDrawCommand level_scale strk h s 255 x_c y_c (py_int r_x)
          (py_int r_y) start_angle stop_angle)) ->
  Forall P
    (draw_colour_arcs level_scale x_c y_c hue sat stroke_weight rad_x_vec
       rad_y_vec seg_angle stop).
Proof.
  intros HP. apply Forall_lookup. intros k c.
  rewrite lookup_draw_colour_arcs.
  destruct (hue !! k) as [h|] eqn:Hh; [|discriminate].
  destruct (sat !! k) as [s|] eqn:Hs; [|discriminate].
  repeat case_match; try discriminate.
  intros [= <-]. apply HP; eapply list_elem_of_lookup_2; eassumption.
Qed.

(** ** Mask mode *)

(** C2.  In mask mode every draw command [display] emits carries level 255,
    hue 0, saturation 0 and value 0, and nothing the call draws or leaves
    behind depends on [level_scale]. *)
Theorem mask_colour_fixed (self : Tunnel St) (level_scale level_scale' : Z) :
  Forall
    (fun c => dc_level c = 255 /\ dc_hue c = 0%Q /\ dc_sat c = 0%Q
              /\ dc_val c = 0)
    (emitted (snd (display level_scale true self))) /\
  display level_scale true self = display level_scale' true self.
Proof.
  split.
  - rewrite display_snd. unfold draw_segments_with_animations.
    destruct (segs _ =? 0); [constructor|]. cbn [emitted].
    apply Forall_draw_mask_arcs. intros. cbn. auto.
  - apply injective_projections.
    + rewrite !display_fst. reflexivity.
    + rewrite !display_snd, !display_fst. reflexivity.
Qed.

(** ** The accumulators *)

(** The sampling contract of section 4.1 and of section 6: one value per
    supplied angle. *)
Hypothesis get_value_vector_length :
  forall (st : St) (angles : list Q),
    length (get_value_vector st angles) = length angles.
Hypothesis sawtooth_vector_length :
  forall (angles : list Q) (smoothing : Q),
    length (sawtooth_vector angles smoothing) = length angles.

Lemma route_segment_shape (rel_angle : list Q) (acc : Adjust)
    (anim : Animation St) :
  adjust_shape (length rel_angle) acc ->
  adjust_shape (length rel_angle) (route_segment rel_angle acc anim).
Proof.
  unfold adjust_shape. intros (Hr & Ht & Hc & Hw & Hp & Hs).
  destruct anim as [tgt st]; destruct tgt; cbn;
    rewrite ?length_vec_add_scalar, ?length_vec_add
      by (rewrite get_value_vector_length; congruence);
    repeat split; assumption.
Qed.

Lemma segment_adjust_shape (rel_angle : list Q)
    (channels : list (Animation St)) :
  adjust_shape (length rel_angle) (segment_adjust rel_angle channels).
Proof.
  unfold segment_adjust.
  assert (H0 : adjust_shape (length rel_angle)
                 (zero_adjust (length rel_angle))).
  { unfold adjust_shape, zero_adjust. cbn.
    rewrite length_np_zeros. repeat split; reflexivity. }
  revert H0. generalize (zero_adjust (length rel_angle)).
  induction channels as [|a l IH]; intros acc Hacc; [exact Hacc|].
  cbn [foldl]. apply IH, route_segment_shape, Hacc.
Qed.

Lemma length_segment_hue (self : Tunnel St) (rel_angle : list Q)
    (adj : Adjust) :
  adjust_shape (length rel_angle) adj ->
  length (segment_hue self rel_angle adj) = length rel_angle.
Proof.
  intros (Hr & Ht & Hc & Hw & Hp & Hs). unfold segment_hue.
  rewrite length_map.
  rewrite length_vec_add; rewrite ?length_map; [exact Hc|].
  rewrite length_vec_mul; rewrite ?length_map; [congruence|].
  rewrite sawtooth_vector_length.
  rewrite length_vec_mul; rewrite ?length_map; congruence.
Qed.

(** Each accumulator only sees the channels routed to it. *)
Lemma x_adjust_foldl (rel_angle : list Q) (l : list (Animation St)) :
  forall acc,
  x_adjust (foldl (route_segment rel_angle) acc l) =
  foldl (fun c anim =>
           if decide (target anim = PositionX)
           then (c + get_value (anim_state anim) 0
                     * inject_Z (x_size geometry / 2) / 127)%Q
           else c)
    (x_adjust acc) l.
Proof.
  induction l as [|a l IH]; intros acc; [reflexivity|].
  cbn [foldl]. rewrite IH. destruct a as [tgt st]; destruct tgt; reflexivity.
Qed.

Lemma y_adjust_foldl (rel_angle : list Q) (l : list (Animation St)) :
  forall acc,
  y_adjust (foldl (route_segment rel_angle) acc l) =
  foldl (fun c anim =>
           if decide (target anim = PositionY)
           then (c + get_value (anim_state anim) 0
                     * inject_Z (y_size geometry / 2) / 127)%Q
           else c)
    (y_adjust acc) l.
Proof.
  induction l as [|a l IH]; intros acc; [reflexivity|].
  cbn [foldl]. rewrite IH. destruct a as [tgt st]; destruct tgt; reflexivity.
Qed.

Ltac fold_projection l :=
  let a := fresh "a" in
  let IH := fresh "IH" in
  let acc := fresh "acc" in
  let tgt := fresh "tgt" in
  let st := fresh "st" in
  induction l as [|a l IH]; intros acc; [reflexivity|];
  cbn [foldl]; rewrite IH; destruct a as [tgt st]; destruct tgt; reflexivity.




Lemma rad_adjust_foldl (rel_angle : list Q) (l : list (Animation St)) :
  forall acc,
  rad_adjust (foldl (route_segment rel_angle) acc l) =
  foldl (fun u anim =>
           if decide (target anim = Radius)
           then vec_add u (get_value_vector (anim_state anim) rel_angle)
           else u)
    (rad_adjust acc) l.
Proof. fold_projection l. Qed.



(** ** Centre of the arcs *)

(** C6, amended.  Every draw command [display] emits is centred at
    [x_center + x_offset + int(x_adjust)] and
    [y_center + y_offset + int(y_adjust)], where the offsets are the clamped
    ones the call leaves, [x_adjust] and [y_adjust] sum
    [sample * (size / 2) / 127] over the channels routed to PositionX and
    PositionY, and [int] truncates toward zero. *)
Theorem centre_truncated (level_scale : Z) (as_mask : bool)
    (self : Tunnel St) :
  let self' := fst (display level_scale as_mask self) in
  let x_adjust0 :=
    channel_sum PositionX
      (fun st => get_value st 0 * inject_Z (x_size geometry / 2) / 127)%Q
      (anims self') in
  let y_adjust0 :=
    channel_sum PositionY
      (fun st => get_value st 0 * inject_Z (y_size geometry / 2) / 127)%Q
      (anims self') in
  Forall
    (fun c =>
       dc_x c = x_center geometry + x_offset self' + py_int x_adjust0 /\
       dc_y c = y_center geometry + y_offset self' + py_int y_adjust0)
    (emitted (snd (display level_scale as_mask self))).
Proof.
  cbv zeta. rewrite display_snd.
  generalize (fst (display level_scale as_mask self)). intros self'.
  unfold draw_segments_with_animations.
  destruct (segs self' =? 0); [constructor|].
  unfold segment_adjust. rewrite x_adjust_foldl, y_adjust_foldl.
  destruct as_mask; cbn [emitted].
  - apply Forall_draw_mask_arcs. intros. cbn. split; reflexivity.
  - apply Forall_draw_colour_arcs. intros. cbn. split; reflexivity.
Qed.

(** ** Hue *)


(** ** Mask flag *)

Lemma arc_geometry_colour_mask (level_scale x_c y_c : Z)
    (hue sat stroke_weight rad_x_vec rad_y_vec seg_angle stop : list Q) :
  length hue = length stroke_weight ->
  length sat = length stroke_weight ->
  map arc_geometry
    (draw_colour_arcs level_scale x_c y_c hue sat stroke_weight rad_x_vec
       rad_y_vec seg_angle stop) =
  map arc_geometry
    (draw_mask_arcs x_c y_c stroke_weight rad_x_vec rad_y_vec seg_angle
       stop).
Proof.
  intros Hhue Hsat. apply list_eq. intros k.
  change map with (@fmap list _). rewrite !list_lookup_fmap.
  rewrite lookup_draw_colour_arcs, lookup_draw_mask_arcs.
  destruct (stroke_weight !! k) as [strk|] eqn:Hk.
  - apply lookup_lt_Some in Hk.
    destruct (lookup_lt_is_Some_2 hue k) as [h ->]; [lia|].
    destruct (lookup_lt_is_Some_2 sat k) as [s ->]; [lia|].
    repeat case_match; reflexivity.
  - apply lookup_ge_None in Hk.
    rewrite (lookup_ge_None_2 hue k) by lia. reflexivity.
Qed.

(** C10.  With and without the mask flag, and whatever the level scales,
    [display] emits the same number of draw commands, and the commands at
    each position have the same stroke weight, centre, radii and start and
    stop angles. *)
Theorem mask_flag_keeps_geometry (self : Tunnel St)
    (level_scale level_scale' : Z) :
  length (emitted (snd (display level_scale true self))) =
  length (emitted (snd (display level_scale' false self))) /\
  map arc_geometry (emitted (snd (display level_scale true self))) =
  map arc_geometry (emitted (snd (display level_scale' false self))).
Proof.
  assert (Hgeo :
    map arc_geometry (emitted (snd (display level_scale true self))) =
    map arc_geometry (emitted (snd (display level_scale' false self)))).
  { rewrite !display_snd, !display_fst.
    unfold draw_segments_with_animations.
    cbn [segs blacking anims curr_angle x_offset y_offset].
    destruct (segs self =? 0); [reflexivity|]. cbn [emitted].
    symmetry. set (rel := map _ (select_segments _ _)).
    pose proof (segment_adjust_shape rel (map advance (anims self)))
      as Hshape.
    pose proof (length_segment_hue
                  (fst (display level_scale' false self)) rel _ Hshape)
      as Hhue.
    rewrite display_fst in Hhue.
    destruct Hshape as (Hr & Ht & Hc & Hw & Hp & Hs).
    apply arc_geometry_colour_mask; rewrite ?length_map; congruence. }
  split; [|exact Hgeo].
  apply (f_equal length) in Hgeo. rewrite !length_map in Hgeo. exact Hgeo.
Qed.

(** ** The arcs drawn are the segments selected *)

Lemma dc_start_draw_mask_arcs (x_c y_c : Z)
    (stroke_weight rad_x_vec rad_y_vec seg_angle stop : list Q) :
  length stroke_weight = length seg_angle ->
  length rad_x_vec = length seg_angle ->
  length rad_y_vec = length seg_angle ->
  length stop = length seg_angle ->
  map dc_start
    (draw_mask_arcs x_c y_c stroke_weight rad_x_vec rad_y_vec seg_angle
       stop) = seg_angle.
Proof.
  intros Hs Hx Hy Hp. apply list_eq. intros k.
  change map with (@fmap list _). rewrite list_lookup_fmap.
  rewrite lookup_draw_mask_arcs.
  destruct (seg_angle !! k) as [a|] eqn:Hk.
  - apply lookup_lt_Some in Hk.
    destruct (lookup_lt_is_Some_2 stroke_weight k) as [? ->]; [lia|].
    destruct (lookup_lt_is_Some_2 rad_x_vec k) as [? ->]; [lia|].
    destruct (lookup_lt_is_Some_2 rad_y_vec k) as [? ->]; [lia|].
    destruct (lookup_lt_is_Some_2 stop k) as [? ->]; [lia|].
    reflexivity.
  - repeat case_match; reflexivity.
Qed.

Lemma dc_start_arc_geometry (cmds : list DrawCommand) :
  map dc_start cmds = map (fun g => snd (fst g)) (map arc_geometry cmds).
Proof. rewrite map_map. reflexivity. Qed.

(** Whatever the mode, the arcs [draw_segments_with_animations] draws start,
    in order, at the angles of the segments [select_segments] keeps. *)
Lemma drawn_segments_selected (self : Tunnel St) (rad_x rad_y : Q)
    (n_segs : Z) (as_mask : bool) (level_scale : Z) (thickness0 : Q) :
  segs self <> 0 ->
  map dc_start
    (emitted
       (draw_segments_with_animations self rad_x rad_y n_segs as_mask
          level_scale thickness0)) =
  map (fun i =>
         (TWOPI / inject_Z (segs self) * inject_Z i + curr_angle self)%Q)
    (select_segments (blacking self) n_segs).
Proof.
  intros Hsegs. unfold draw_segments_with_animations.
  destruct (Z.eqb_spec (segs self) 0) as [? | _]; [contradiction|].
  set (rel := map _ (select_segments _ _)).
  assert (Hrel : length rel = length (select_segments (blacking self) n_segs))
    by apply length_map.
  pose proof (segment_adjust_shape rel (anims self)) as Hshape.
  pose proof (length_segment_hue self rel _ Hshape) as Hhue.
  destruct Hshape as (Hr & Ht & Hc & Hw & Hp & Hs).
  assert (Hmask :
    forall x_c y_c,
    map dc_start
      (draw_mask_arcs x_c y_c
         (map (fun t => Qabs (thickness0 * (1 + t / 127))%Q)
            (thickness_adjust (segment_adjust rel (anims self))))
         (map (fun r => Qabs (rad_x + r)%Q)
            (rad_adjust (segment_adjust rel (anims self))))
         (map (fun r => Qabs (rad_y + r)%Q)
            (rad_adjust (segment_adjust rel (anims self))))
         (map (fun i =>
                 (TWOPI / inject_Z (segs self) * inject_Z i
                  + curr_angle self)%Q)
            (select_segments (blacking self) n_segs))
         (map (fun a => (a + TWOPI / inject_Z (segs self))%Q)
            (map (fun i =>
                    (TWOPI / inject_Z (segs self) * inject_Z i
                     + curr_angle self)%Q)
               (select_segments (blacking self) n_segs)))) =
    map (fun i =>
           (TWOPI / inject_Z (segs self) * inject_Z i + curr_angle self)%Q)
      (select_segments (blacking self) n_segs)).
  { intros x_c y_c.
    apply dc_start_draw_mask_arcs; rewrite !length_map; congruence. }
  destruct as_mask; cbn [emitted]; [apply Hmask|].
  rewrite dc_start_arc_geometry, arc_geometry_colour_mask,
    <- dc_start_arc_geometry; [apply Hmask | |];
    rewrite !length_map; congruence.
Qed.

(** ** Channels no branch routes *)








(** ** Slot order *)










(** ** The arcs of one call, one by one *)

Lemma py_int_nonneg (x : Q) : (0 <= x)%Q -> 0 <= py_int x.
Proof.
  unfold py_int, Qle. cbn. intros H. apply Z.quot_pos; lia.
Qed.

(** The arc drawn at position [k] belongs to the [k]-th selected segment and
    is built from the [k]-th entries of the accumulators. *)
Lemma draw_segments_lookup (self : Tunnel St) (rad_x rad_y : Q) (n_segs : Z)
    (as_mask : bool) (level_scale : Z) (thickness0 : Q) (k : nat)
    (c : DrawCommand) :
  let rot_interval := (TWOPI / inject_Z (segs self))%Q in
  let rel_angle :=
    map (fun i => (rot_interval * inject_Z i)%Q)
      (select_segments (blacking self) n_segs) in
  let adj := segment_adjust rel_angle (anims self) in
  emitted
    (draw_segments_with_animations self rad_x rad_y n_segs as_mask
       level_scale thickness0) !! k = Some c ->
  segs self <> 0 /\
  exists i t r,
    select_segments (blacking self) n_segs !! k = Some i /\
    thickness_adjust adj !! k = Some t /\
    rad_adjust adj !! k = Some r /\
    dc_stroke c = Qabs (thickness0 * (1 + t / 127))%Q /\
    dc_rad_x c = py_int (Qabs (rad_x + r)) /\
    dc_rad_y c = py_int (Qabs (rad_y + r)) /\
    dc_start c = (rot_interval * inject_Z i + curr_angle self)%Q /\
    dc_stop c = (dc_start c + rot_interval)%Q /\
    (if as_mask then dc_level c = 255 /\ dc_val c = 0
     else dc_level c = level_scale /\ dc_val c = 255 /\
          exists s, col_sat_adjust adj !! k = Some s /\
                    dc_sat c = (255 * col_sat self + s)%Q).
Proof.
  cbv zeta. unfold draw_segments_with_animations.
  destruct (Z.eqb_spec (segs self) 0) as [? | Hsegs]; [discriminate|].
  intros Hk. split; [exact Hsegs|].
  set (rel := map _ (select_segments _ _)) in *.
  set (adj := segment_adjust rel (anims self)) in *.
  assert (Hgeo : forall strk r_x r_y a b,
    map (fun t => Qabs (thickness0 * (1 + t / 127))%Q) (thickness_adjust adj)
      !! k = Some strk ->
    map (fun r => Qabs (rad_x + r)%Q) (rad_adjust adj) !! k = Some r_x ->
    map (fun r => Qabs (rad_y + r)%Q) (rad_adjust adj) !! k = Some r_y ->
    map (fun i => (TWOPI / inject_Z (segs self) * inject_Z i
                   + curr_angle self)%Q)
      (select_segments (blacking self) n_segs) !! k = Some a ->
    map (fun a => (a + TWOPI / inject_Z (segs self))%Q)
      (map (fun i => (TWOPI / inject_Z (segs self) * inject_Z i
                      + curr_angle self)%Q)
         (select_segments (blacking self) n_segs)) !! k = Some b ->
    exists i t r,
      select_segments (blacking self) n_segs !! k = Some i /\
      thickness_adjust adj !! k = Some t /\
      rad_adjust adj !! k = Some r /\
      strk = Qabs (thickness0 * (1 + t / 127))%Q /\
      py_int r_x = py_int (Qabs (rad_x + r)) /\
      py_int r_y = py_int (Qabs (rad_y + r)) /\
      a = (TWOPI / inject_Z (segs self) * inject_Z i + curr_angle self)%Q /\
      b = (a + TWOPI / inject_Z (segs self))%Q).
  { intros strk r_x r_y a b Hs Hx Hy Ha Hb.
    change map with (@fmap list _) in *.
    rewrite !list_lookup_fmap in Hb. rewrite list_lookup_fmap in Ha.
    rewrite list_lookup_fmap in Hs, Hx, Hy.
    destruct (select_segments (blacking self) n_segs !! k) as [i|];
      [|discriminate].
    destruct (thickness_adjust adj !! k) as [t|]; [|discriminate].
    destruct (rad_adjust adj !! k) as [r|]; [|discriminate].
    cbn in Hs, Hx, Hy, Ha, Hb.
    injection Hs as <-. injection Hx as <-. injection Hy as <-.
    injection Ha as <-. injection Hb as <-.
    exists i, t, r. repeat split; reflexivity. }
  destruct as_mask; cbn [emitted] in Hk.
  - rewrite lookup_draw_mask_arcs in Hk.
    repeat case_match; try discriminate. injection Hk as <-.
    destruct (Hgeo _ _ _ _ _ eq_refl eq_refl eq_refl eq_refl eq_refl)
      as (i & t & r & Hi & Ht & Hr & Hs & Hx & Hy & Ha & Hb).
    exists i, t, r. cbn. repeat split; assumption.
  - rewrite lookup_draw_colour_arcs in Hk.
    destruct (segment_hue self rel adj !! k) as [h|]; [|discriminate].
    destruct (map (fun c => (255 * col_sat self + c)%Q) (col_sat_adjust adj)
                !! k) as [s|] eqn:Hsat; [|discriminate].
    repeat case_match; try discriminate. injection Hk as <-.
    destruct (Hgeo _ _ _ _ _ eq_refl eq_refl eq_refl eq_refl eq_refl)
      as (i & t & r & Hi & Ht & Hr & Hs & Hx & Hy & Ha & Hb).
    exists i, t, r. cbn. repeat split; try assumption.
    change map with (@fmap list _) in Hsat.
    rewrite list_lookup_fmap in Hsat.
    destruct (col_sat_adjust adj !! k) as [s0|]; [|discriminate].
    injection Hsat as <-. exists s0. split; reflexivity.
Qed.

(** ** What [display] leaves alone *)

(** X1.  When the offset limits of the geometry are not negative, the
    offsets [display] leaves lie within them, and offsets already within
    them are left as they are. *)
Theorem display_offsets_clamped (level_scale : Z) (as_mask : bool)
    (self : Tunnel St) :
  0 <= max_x_offset geometry ->
  0 <= max_y_offset geometry ->
  let self' := fst (display level_scale as_mask self) in
  (- max_x_offset geometry <= x_offset self' <= max_x_offset geometry) /\
  (- max_y_offset geometry <= y_offset self' <= max_y_offset geometry) /\
  (- max_x_offset geometry <= x_offset self <= max_x_offset geometry ->
   x_offset self' = x_offset self) /\
  (- max_y_offset geometry <= y_offset self <= max_y_offset geometry ->
   y_offset self' = y_offset self).
Proof.
  intros Hx Hy. cbv zeta. rewrite display_fst. cbn [x_offset y_offset].
  repeat split; lia.
Qed.

(** X2.  [display] writes the angle, the two offsets and the state of the
    channels, and nothing else: the eight knob values, the segment count and
    the blacking are as before, and so are the number of channels and the
    target of each. *)
Theorem display_keeps_parameters (level_scale : Z) (as_mask : bool)
    (self : Tunnel St) :
  let self' := fst (display level_scale as_mask self) in
  rot_speed self' = rot_speed self /\ thickness self' = thickness self /\
  radius self' = radius self /\ ellipse_aspect self' = ellipse_aspect self /\
  col_center self' = col_center self /\ col_width self' = col_width self /\
  col_spread self' = col_spread self /\ col_sat self' = col_sat self /\
  segs self' = segs self /\ blacking self' = blacking self /\
  map target (anims self') = map target (anims self) /\
  map anim_state (anims self') = map update_state (map anim_state (anims self)).
Proof.
  cbv zeta. rewrite display_fst. cbn. repeat split.
  - rewrite map_map. reflexivity.
  - rewrite !map_map. reflexivity.
Qed.

(** ** Shape of the arcs *)

(** X3.  No arc is drawn with a negative stroke weight or a negative
    radius, whatever the channels contribute. *)
Theorem arcs_never_negative (level_scale : Z) (as_mask : bool)
    (self : Tunnel St) :
  Forall
    (fun c => (0 <= dc_stroke c)%Q /\ 0 <= dc_rad_x c /\ 0 <= dc_rad_y c)
    (emitted (snd (display level_scale as_mask self))).
Proof.
  rewrite display_snd. apply Forall_lookup. intros k c Hk.
  apply draw_segments_lookup in Hk.
  destruct Hk as (_ & i & t & r & _ & _ & _ & -> & -> & -> & _).
  repeat split; try apply py_int_nonneg; apply Qabs_nonneg.
Qed.

(** X4.  Every arc spans one rotation interval: it stops [TWOPI / segs]
    after it starts, also when blacking leaves fewer than [segs] arcs. *)
Theorem arc_spans_rot_interval (level_scale : Z) (as_mask : bool)
    (self : Tunnel St) :
  Forall
    (fun c => dc_stop c = (dc_start c + TWOPI / inject_Z (segs self))%Q)
    (emitted (snd (display level_scale as_mask self))).
Proof.
  rewrite display_snd. apply Forall_lookup. intros k c Hk.
  apply draw_segments_lookup in Hk. rewrite display_fst in Hk.
  cbn [segs] in Hk.
  destruct Hk as (_ & i & t & r & _ & _ & _ & _ & _ & _ & _ & Hstop & _).
  exact Hstop.
Qed.

Lemma draw_mask_arcs_no_angle (x_c y_c : Z)
    (stroke_weight rad_x_vec rad_y_vec stop : list Q) :
  draw_mask_arcs x_c y_c stroke_weight rad_x_vec rad_y_vec [] stop = [].
Proof.
  apply list_eq. intros k. rewrite lookup_draw_mask_arcs.
  rewrite !lookup_nil. repeat case_match; reflexivity.
Qed.

Lemma draw_colour_arcs_no_angle (level_scale x_c y_c : Z)
    (hue sat stroke_weight rad_x_vec rad_y_vec stop : list Q) :
  draw_colour_arcs level_scale x_c y_c hue sat stroke_weight rad_x_vec
    rad_y_vec [] stop = [].
Proof.
  apply list_eq. intros k. rewrite lookup_draw_colour_arcs.
  rewrite !lookup_nil. repeat case_match; reflexivity.
Qed.

(** X5.  A negative segment count draws nothing and raises nothing. *)
Theorem negative_segs_draw_nothing (level_scale : Z) (as_mask : bool)
    (self : Tunnel St) :
  segs self < 0 ->
  snd (display level_scale as_mask self) = Ok [].
Proof.
  intros Hneg. rewrite display_snd, display_fst.
  unfold draw_segments_with_animations. cbn [segs blacking].
  destruct (Z.eqb_spec (segs self) 0) as [? | _]; [lia|].
  assert (Hsel : select_segments (blacking self) (segs self) = []).
  { unfold select_segments, xrange.
    replace (Z.to_nat (segs self)) with 0%nat by lia.
    cbn. destruct (0 <=? _); reflexivity. }
  rewrite Hsel. cbn [map].
  destruct as_mask;
    [rewrite draw_mask_arcs_no_angle | rewrite draw_colour_arcs_no_angle];
    reflexivity.
Qed.

(** ** Which arcs are drawn, and how many *)


Lemma length_xrange (n : Z) : length (xrange n) = Z.to_nat n.
Proof. unfold xrange. rewrite length_map. apply length_seq. Qed.


Lemma xrange_succ (m : nat) :
  xrange (Z.of_nat (S m)) = xrange (Z.of_nat m) ++ [Z.of_nat m].
Proof.
  unfold xrange. rewrite !Nat2Z.id, seq_S, map_app. reflexivity.
Qed.


Lemma length_select_segments (blacking0 n_segs : Z) :
  (length (select_segments blacking0 n_segs) <= Z.to_nat n_segs)%nat.
Proof.
  rewrite <- length_xrange. unfold select_segments.
  destruct (0 <=? _); apply length_filter.
Qed.

(** Multiples of [d] below [n] number [ceil (n / d)]. *)
Lemma count_multiples (d : Z) (m : nat) :
  1 <= d ->
  Z.of_nat (length (filter (fun i => np_mod i d = 0) (xrange (Z.of_nat m))))
  = (Z.of_nat m + d - 1) / d.
Proof.
  intros Hd. induction m as [|m IH].
  - cbn. symmetry. apply Z.div_small. lia.
  - rewrite xrange_succ, filter_app, length_app, Nat2Z.inj_add, IH.
    rewrite filter_cons, filter_nil, np_mod_pos by lia.
    destruct (decide (Z.of_nat m mod d = 0)) as [Hz | Hnz]; cbn [length].
    + pose proof (Z.div_mod (Z.of_nat m) d ltac:(lia)) as Hm.
      rewrite Hz in Hm.
      replace (Z.of_nat m + d - 1) with ((d - 1) + Z.of_nat m / d * d) by lia.
      replace (Z.of_nat (S m) + d - 1) with (0 + (Z.of_nat m / d + 1) * d)
        by lia.
      rewrite !Z.div_add by lia.
      rewrite (Z.div_small (d - 1)), (Z.div_small 0) by lia. lia.
    + pose proof (Z.div_mod (Z.of_nat m) d ltac:(lia)) as Hm.
      pose proof (Z.mod_pos_bound (Z.of_nat m) d ltac:(lia)) as Hr.
      replace (Z.of_nat m + d - 1)
        with ((Z.of_nat m mod d - 1) + (Z.of_nat m / d + 1) * d) by lia.
      replace (Z.of_nat (S m) + d - 1)
        with (Z.of_nat m mod d + (Z.of_nat m / d + 1) * d) by lia.
      rewrite !Z.div_add by lia.
      rewrite (Z.div_small (Z.of_nat m mod d - 1)),
        (Z.div_small (Z.of_nat m mod d)) by lia.
      lia.
Qed.

Lemma count_non_multiples (d : Z) (m : nat) :
  1 <= d ->
  Z.of_nat (length (filter (fun i => np_mod i d <> 0) (xrange (Z.of_nat m))))
  = Z.of_nat m - (Z.of_nat m + d - 1) / d.
Proof.
  intros Hd. rewrite <- (count_multiples d m Hd).
  pose proof (filter_app_complement (fun i => np_mod i d = 0)
                (xrange (Z.of_nat m))) as Hperm.
  apply Permutation_length in Hperm.
  rewrite length_app, length_xrange, Nat2Z.id in Hperm. lia.
Qed.

(** The number of segments kept, for every blacking and segment count. *)
Lemma count_select_segments (blacking0 n_segs : Z) :
  0 <= n_segs ->
  Z.of_nat (length (select_segments blacking0 n_segs)) =
  if 0 <=? (if blacking0 =? -1 then 0 else blacking0)
  then (n_segs + Z.max blacking0 1 - 1) / Z.max blacking0 1
  else n_segs - (n_segs + Z.abs blacking0 - 1) / Z.abs blacking0.
Proof.
  intros Hn. unfold select_segments.
  rewrite <- (Z2Nat.id n_segs Hn).
  destruct (Z.eqb_spec blacking0 (-1)) as [-> | Hb].
  - cbn [Z.leb Z.compare]. change (Z.abs (Z.max (-1) 1)) with 1.
    change (Z.max (-1) 1) with 1. apply count_multiples. lia.
  - destruct (Z.leb_spec 0 blacking0).
    + rewrite Z.abs_eq by lia. apply count_multiples. lia.
    + apply count_non_multiples. lia.
Qed.

(** X6.  When the segment count is not 0, [display] draws one arc per
    segment the blacking keeps, in order, each starting at
    [TWOPI / segs * index + curr_angle] for the angle the call leaves; so it
    never draws more than [segs] arcs. *)
Theorem display_draws_selected (level_scale : Z) (as_mask : bool)
    (self : Tunnel St) :
  segs self <> 0 ->
  let drawn := emitted (snd (display level_scale as_mask self)) in
  let selected := select_segments (blacking self) (segs self) in
  map dc_start drawn =
    map (fun i =>
           (TWOPI / inject_Z (segs self) * inject_Z i
            + curr_angle (fst (display level_scale as_mask self)))%Q)
      selected /\
  length drawn = length selected /\
  (length drawn <= Z.to_nat (segs self))%nat.
Proof.
  intros Hsegs. cbv zeta.
  assert (Hstart :
    map dc_start (emitted (snd (display level_scale as_mask self))) =
    map (fun i =>
           (TWOPI / inject_Z (segs self) * inject_Z i
            + curr_angle (fst (display level_scale as_mask self)))%Q)
      (select_segments (blacking self) (segs self))).
  { rewrite display_snd, drawn_segments_selected
      by (rewrite display_fst; exact Hsegs).
    rewrite display_fst. reflexivity. }
  assert (Hlen : length (emitted (snd (display level_scale as_mask self)))
                 = length (select_segments (blacking self) (segs self))).
  { apply (f_equal length) in Hstart. rewrite !length_map in Hstart.
    exact Hstart. }
  split; [exact Hstart|]. split; [exact Hlen|].
  rewrite Hlen. apply length_select_segments.
Qed.

(** X7.  The number of arcs [display] draws for a positive segment count:
    [ceil (segs / max(blacking, 1))] when blacking is -1 or not negative,
    and [segs - ceil (segs / |blacking|)] when blacking is below -1. *)
Theorem display_arc_count (level_scale : Z) (as_mask : bool)
    (self : Tunnel St) :
  0 < segs self ->
  Z.of_nat (length (emitted (snd (display level_scale as_mask self)))) =
  if 0 <=? (if blacking self =? -1 then 0 else blacking self)
  then (segs self + Z.max (blacking self) 1 - 1) / Z.max (blacking self) 1
  else segs self
       - (segs self + Z.abs (blacking self) - 1) / Z.abs (blacking self).
Proof.
  intros Hsegs. rewrite <- count_select_segments by lia. f_equal.
  rewrite display_snd.
  pose proof (drawn_segments_selected
                (fst (display level_scale as_mask self))
                (fst (fst (display_radii self (frame_ellipse_adjust self))))
                (snd (fst (display_radii self (frame_ellipse_adjust self))))
                (segs self) as_mask level_scale
                (snd (display_radii self (frame_ellipse_adjust self))))
    as Hstart.
  rewrite display_fst in Hstart at 1. cbn [segs] in Hstart.
  specialize (Hstart ltac:(lia)).
  apply (f_equal length) in Hstart. rewrite !length_map in Hstart.
  rewrite Hstart, display_fst. reflexivity.
Qed.


(** ** Stroke, radii and saturation of each arc *)

Lemma thickness_adjust_foldl (rel_angle : list Q)
    (l : list (Animation St)) :
  forall acc,
  thickness_adjust (foldl (route_segment rel_angle) acc l) =
  foldl (fun u anim =>
           if decide (target anim = Thickness)
           then vec_add u (get_value_vector (anim_state anim) rel_angle)
           else u)
    (thickness_adjust acc) l.
Proof. fold_projection l. Qed.

Lemma col_sat_adjust_foldl (rel_angle : list Q)
    (l : list (Animation St)) :
  forall acc,
  col_sat_adjust (foldl (route_segment rel_angle) acc l) =
  foldl (fun u anim =>
           if decide (target anim = ColorSaturation)
           then vec_add u (get_value_vector (anim_state anim) rel_angle)
           else u)
    (col_sat_adjust acc) l.
Proof. fold_projection l. Qed.

(** The three per-segment accumulators are the sums of the vector samples
    of the channels routed to them. *)
Lemma segment_adjust_vectors (rel_angle : list Q)
    (channels : list (Animation St)) :
  thickness_adjust (segment_adjust rel_angle channels)
  = channel_vector_sum Thickness rel_angle channels /\
  rad_adjust (segment_adjust rel_angle channels)
  = channel_vector_sum Radius rel_angle channels /\
  col_sat_adjust (segment_adjust rel_angle channels)
  = channel_vector_sum ColorSaturation rel_angle channels.
Proof.
  unfold segment_adjust, channel_vector_sum.
  rewrite thickness_adjust_foldl, rad_adjust_foldl, col_sat_adjust_foldl.
  repeat split; reflexivity.
Qed.

(** X9.  The arc at position [k] has stroke weight
    [|thickness_px * (1 + t / 127)|] and radii [int |rad_x + r|] and
    [int |rad_y + r|], where [t] and [r] are the [k]-th entries of the summed
    vector samples of the channels routed to Thickness and to Radius, and
    [rad_x], [rad_y], [thickness_px] are the values of lines 145-149. *)
Theorem arc_stroke_and_radii (level_scale : Z) (as_mask : bool)
    (self : Tunnel St) (k : nat) (c : DrawCommand) :
  let channels := map advance (anims self) in
  let rot_interval := (TWOPI / inject_Z (segs self))%Q in
  let rel_angle :=
    map (fun i => (rot_interval * inject_Z i)%Q)
      (select_segments (blacking self) (segs self)) in
  let radii := display_radii self (frame_ellipse_adjust self) in
  emitted (snd (display level_scale as_mask self)) !! k = Some c ->
  exists t r,
    channel_vector_sum Thickness rel_angle channels !! k = Some t /\
    channel_vector_sum Radius rel_angle channels !! k = Some r /\
    dc_stroke c = Qabs (snd radii * (1 + t / 127))%Q /\
    dc_rad_x c = py_int (Qabs (fst (fst radii) + r)) /\
    dc_rad_y c = py_int (Qabs (snd (fst radii) + r)).
Proof.
  cbv zeta. rewrite display_snd. intros Hk.
  apply draw_segments_lookup in Hk. rewrite display_fst in Hk.
  cbn [segs blacking anims] in Hk.
  destruct Hk as (_ & i & t & r & _ & Ht & Hr & Hs & Hx & Hy & _).
  destruct (segment_adjust_vectors
              (map (fun i => (TWOPI / inject_Z (segs self) * inject_Z i)%Q)
                 (select_segments (blacking self) (segs self)))
              (map advance (anims self))) as (HT & HR & _).
  rewrite HT in Ht. rewrite HR in Hr.
  exists t, r. repeat split; assumption.
Qed.

(** X10.  Outside mask mode every arc carries the caller's level and value
    255, and the arc at position [k] has saturation [255 * col_sat + s],
    where [s] is the [k]-th entry of the summed vector samples of the
    channels routed to ColorSaturation; the saturation is neither wrapped nor
    clamped. *)
Theorem colour_arc_level_value_saturation (level_scale : Z)
    (self : Tunnel St) (k : nat) (c : DrawCommand) :
  let channels := map advance (anims self) in
  let rot_interval := (TWOPI / inject_Z (segs self))%Q in
  let rel_angle :=
    map (fun i => (rot_interval * inject_Z i)%Q)
      (select_segments (blacking self) (segs self)) in
  emitted (snd (display level_scale false self)) !! k = Some c ->
  dc_level c = level_scale /\ dc_val c = 255 /\
  exists s,
    channel_vector_sum ColorSaturation rel_angle channels !! k = Some s /\
    dc_sat c = (255 * col_sat self + s)%Q.
Proof.
  cbv zeta. rewrite display_snd. intros Hk.
  apply draw_segments_lookup in Hk. rewrite display_fst in Hk.
  cbn [segs blacking anims col_sat] in Hk.
  destruct Hk as (_ & i & t & r & _ & _ & _ & _ & _ & _ & _ & _ & Hcol).
  destruct Hcol as (Hl & Hv & s & Hs & Hsat).
  destruct (segment_adjust_vectors
              (map (fun i => (TWOPI / inject_Z (segs self) * inject_Z i)%Q)
                 (select_segments (blacking self) (segs self)))
              (map advance (anims self))) as (_ & _ & HS).
  rewrite HS in Hs.
  split; [exact Hl|]. split; [exact Hv|]. exists s. split; assumption.
Qed.

(** ** Nudging the beam *)

Lemma iter_nudge_x_pos (n : nat) (ui : TunnelUI St) :
  Nat.iter n nudge_x_pos ui =
  mkTunnelUI
    (with_offsets (model ui)
       (x_offset (model ui) + Z.of_nat n * ui_x_nudge ui)
       (y_offset (model ui)))
    (ui_x_nudge ui) (ui_y_nudge ui).
Proof.
  induction n as [|n IH].
  - destruct ui as [[] ? ?]. unfold with_offsets. cbn. f_equal. f_equal.
    lia.
  - rewrite Nat.iter_succ, IH. unfold nudge_x_pos. cbn. f_equal.
    unfold with_offsets. cbn. f_equal. lia.
Qed.

(** X12.  Nudges are not clamped when they are made: [n] nudges to the
    right move the offset by [n] times the nudge, however far.  The next
    [display] brings the offset back within the limits of the geometry. *)
Theorem nudges_accumulate_until_display (level_scale : Z) (as_mask : bool)
    (ui : TunnelUI St) (n : nat) :
  let nudged := model (Nat.iter n nudge_x_pos ui) in
  x_offset nudged = x_offset (model ui) + Z.of_nat n * ui_x_nudge ui /\
  y_offset nudged = y_offset (model ui) /\
  x_offset (fst (display level_scale as_mask nudged)) =
    Z.min
      (Z.max (x_offset (model ui) + Z.of_nat n * ui_x_nudge ui)
         (- max_x_offset geometry))
      (max_x_offset geometry).
Proof.
  cbv zeta. rewrite iter_nudge_x_pos, display_fst. cbn.
  repeat split; reflexivity.
Qed.

Lemma foldl_untargeted {A : Type} (tgt : AnimationTarget)
    (step : A -> Animation St -> A) (l : list (Animation St)) :
  Forall (fun anim => target anim <> tgt) l ->
  forall acc,
    foldl (fun acc anim =>
             if decide (target anim = tgt) then step acc anim else acc)
      acc l = acc.
Proof.
  induction 1 as [|a l Ha _ IH]; intros acc; [reflexivity|].
  cbn [foldl]. destruct (decide (target a = tgt)); [contradiction|].
  apply IH.
Qed.

(** X13.  When the offset limits are not negative and no channel is routed
    to PositionX or PositionY, the [display] after [reset_beam_position]
    centres every arc on the centre of the screen. *)
Theorem reset_centres_beam (level_scale : Z) (as_mask : bool)
    (ui : TunnelUI St) :
  0 <= max_x_offset geometry ->
  0 <= max_y_offset geometry ->
  Forall (fun anim => target anim <> PositionX /\ target anim <> PositionY)
    (anims (model ui)) ->
  Forall
    (fun c => dc_x c = x_center geometry /\ dc_y c = y_center geometry)
    (emitted
       (snd (display level_scale as_mask (model (reset_beam_position ui))))).
Proof.
  intros Hx Hy Hpos. rewrite display_snd, display_fst.
  unfold draw_segments_with_animations, reset_beam_position, with_offsets.
  cbn [model segs blacking anims x_offset y_offset curr_angle].
  destruct (segs (model ui) =? 0); [constructor|].
  unfold segment_adjust. rewrite x_adjust_foldl, y_adjust_foldl.
  cbn [zero_adjust x_adjust y_adjust].
  rewrite (foldl_untargeted PositionX
             (fun c anim =>
                (c + get_value (anim_state anim) 0
                     * inject_Z (x_size geometry / 2) / 127)%Q)),
    (foldl_untargeted PositionY
       (fun c anim =>
          (c + get_value (anim_state anim) 0
               * inject_Z (y_size geometry / 2) / 127)%Q)).
  - change (py_int 0) with 0.
    replace (x_center geometry + Z.min (Z.max 0 (- max_x_offset geometry))
                                   (max_x_offset geometry) + 0)
      with (x_center geometry) by lia.
    replace (y_center geometry + Z.min (Z.max 0 (- max_y_offset geometry))
                                   (max_y_offset geometry) + 0)
      with (y_center geometry) by lia.
    destruct as_mask; cbn [emitted].
    + apply Forall_draw_mask_arcs. intros. split; reflexivity.
    + apply Forall_draw_colour_arcs. intros. split; reflexivity.
  - apply Forall_fmap. eapply Forall_impl; [exact Hpos|].
    intros a [_ Ha]. exact Ha.
  - apply Forall_fmap. eapply Forall_impl; [exact Hpos|].
    intros a [Ha _]. exact Ha.
Qed.

End TunnelModel.

(** * The other methods of [Tunnel] and [TunnelUI] *)

Lemma with_offsets_id {St : Type} (self : Tunnel St) :
  with_offsets self (x_offset self) (y_offset self) = self.
Proof. destruct self; reflexivity. Qed.

(** X11.  A nudge and the opposite nudge cancel, on either axis and in
    either order, and a nudge on one axis leaves the other offset alone. *)
Theorem nudge_round_trip {St : Type} (ui : TunnelUI St) :
  nudge_x_neg (nudge_x_pos ui) = ui /\
  nudge_x_pos (nudge_x_neg ui) = ui /\
  nudge_y_neg (nudge_y_pos ui) = ui /\
  nudge_y_pos (nudge_y_neg ui) = ui /\
  y_offset (model (nudge_x_pos ui)) = y_offset (model ui) /\
  x_offset (model (nudge_y_pos ui)) = x_offset (model ui) /\
  nudge_x_pos (nudge_y_pos ui) = nudge_y_pos (nudge_x_pos ui).
Proof.
  destruct ui as [[] nx ny].
  unfold nudge_x_neg, nudge_x_pos, nudge_y_neg, nudge_y_pos, with_offsets.
  cbn. repeat split; f_equal; f_equal; lia.
Qed.

(** ** Python indexing of the channel bank *)

Lemma py_slot_Some (len : nat) (i : Z) (k : nat) :
  py_slot len i = Some k ->
  (k < len)%nat /\ - Z.of_nat len <= i < Z.of_nat len /\
  Z.of_nat k = i mod Z.of_nat len.
Proof.
  unfold py_slot.
  destruct (Z.leb_spec 0 i).
  - destruct (Z.ltb_spec i (Z.of_nat len)); [|discriminate].
    intros [= <-]. rewrite Z.mod_small by lia. lia.
  - destruct (Z.leb_spec (- Z.of_nat len) i); [|discriminate].
    intros [= <-]. split; [lia|]. split; [lia|].
    rewrite Z2Nat.id by lia.
    apply (Z.mod_unique_pos i (Z.of_nat len) (-1)); lia.
Qed.

Lemma py_slot_None (len : nat) (i : Z) :
  py_slot len i = None <-> i < - Z.of_nat len \/ Z.of_nat len <= i.
Proof.
  unfold py_slot.
  destruct (Z.leb_spec 0 i).
  - destruct (Z.ltb_spec i (Z.of_nat len)); split; try discriminate;
      intros; try reflexivity; lia.
  - destruct (Z.leb_spec (- Z.of_nat len) i); split; try discriminate;
      intros; try reflexivity; lia.
Qed.

(** X14.  For an index within [[-len, len)], negative indices counting from
    the end, [replace_current_animation] followed by
    [get_current_animation] returns the new animation; the bank keeps its
    size, every other slot keeps its animation, and nothing else of the
    tunnel changes. *)
Theorem replace_then_get_animation {St : Type} (curr_anim : Z)
    (new_anim : Animation St) (self : Tunnel St) :
  - Z.of_nat (length (anims self)) <= curr_anim
    < Z.of_nat (length (anims self)) ->
  exists self',
    replace_current_animation curr_anim new_anim self = Returns self' /\
    get_current_animation curr_anim self' = Returns new_anim /\
    length (anims self') = length (anims self) /\
    (forall j,
       (j - curr_anim) mod Z.of_nat (length (anims self)) <> 0 ->
       get_animation self' j = get_animation self j) /\
    with_anims self' (anims self) = self.
Proof.
  intros Hrange. unfold replace_current_animation, py_setitem.
  destruct (py_slot (length (anims self)) curr_anim) as [k|] eqn:Hk;
    [|apply py_slot_None in Hk; lia].
  pose proof (py_slot_Some _ _ _ Hk) as (Hlt & _ & Hmod).
  eexists. split; [reflexivity|].
  unfold get_current_animation, get_animation, py_getitem.
  cbn [with_anims anims]. rewrite length_insert, Hk.
  split; [rewrite list_lookup_insert_eq by exact Hlt; reflexivity|].
  split; [reflexivity|]. split.
  - intros j Hj.
    destruct (py_slot (length (anims self)) j) as [kj|] eqn:Hkj;
      [|reflexivity].
    pose proof (py_slot_Some _ _ _ Hkj) as (_ & _ & Hmodj).
    rewrite list_lookup_insert_ne; [reflexivity|].
    intros ->. apply Hj. rewrite Zminus_mod, <- Hmod, <- Hmodj.
    rewrite Z.sub_diag. apply Z.mod_0_l. lia.
  - destruct self; reflexivity.
Qed.

(** X15.  [get_animation] and [replace_current_animation] raise
    [IndexError] exactly for an index outside [[-len, len)]; within it both
    return. *)
Theorem animation_index_error {St : Type} (i : Z) (new_anim : Animation St)
    (self : Tunnel St) :
  (get_animation self i = Raises IndexError <->
   i < - Z.of_nat (length (anims self))
   \/ Z.of_nat (length (anims self)) <= i) /\
  (replace_current_animation i new_anim self = Raises IndexError <->
   i < - Z.of_nat (length (anims self))
   \/ Z.of_nat (length (anims self)) <= i) /\
  (get_current_animation i self = Raises IndexError <->
   replace_current_animation i new_anim self = Raises IndexError).
Proof.
  assert (Hget : get_animation self i = Raises IndexError <->
                 i < - Z.of_nat (length (anims self))
                 \/ Z.of_nat (length (anims self)) <= i).
  { rewrite <- py_slot_None. unfold get_animation, py_getitem.
    destruct (py_slot (length (anims self)) i) as [k|] eqn:Hk.
    - pose proof (py_slot_Some _ _ _ Hk) as (Hlt & _ & _).
      destruct (lookup_lt_is_Some_2 (anims self) k Hlt) as [a ->].
      split; discriminate.
    - split; reflexivity. }
  assert (Hset : replace_current_animation i new_anim self = Raises IndexError
                 <-> i < - Z.of_nat (length (anims self))
                     \/ Z.of_nat (length (anims self)) <= i).
  { rewrite <- py_slot_None. unfold replace_current_animation, py_setitem.
    destruct (py_slot (length (anims self)) i); split;
      try discriminate; reflexivity. }
  split; [exact Hget|]. split; [exact Hset|].
  unfold get_current_animation. rewrite Hget, Hset. reflexivity.
Qed.

(** * The model run on the concrete stage *)

Local Abbreviation stage_display :=
  (display steady_update steady_value steady_value_vector ramp_vector stage).

Lemma steady_value_vector_length (s : Q) (angles : list Q) :
  length (steady_value_vector s angles) = length angles.
Proof. apply length_map. Qed.

Lemma ramp_vector_length (angles : list Q) (smoothing : Q) :
  length (ramp_vector angles smoothing) = length angles.
Proof. apply length_map. Qed.

(** C3 as stated fails: with a segment count of 0, [display] raises
    [ZeroDivisionError] at [TWOPI / self.segs]. *)
Lemma zero_segments_raise :
  segs zero_segment_tunnel = 0 /\
  snd (stage_display 255 false zero_segment_tunnel) = Raise ZeroDivisionError.
Proof. split; reflexivity. Qed.

(** C6 as stated fails: a PositionX adjustment of 96/127 rounds to 1 and is
    truncated to 0, so the arcs are centred at 640 and not at 641. *)
Lemma centre_not_rounded :
  let self' := fst (stage_display 255 false nudged_tunnel) in
  let x_adjust0 :=
    channel_sum PositionX
      (fun st => steady_value st 0 * inject_Z (x_size stage / 2) / 127)%Q
      (anims self') in
  (x_adjust0 == 96 # 127)%Q /\
  py_round x_adjust0 = 1 /\
  ~ Forall
      (fun c => dc_x c = x_center stage + x_offset self' + py_round x_adjust0)
      (emitted (snd (stage_display 255 false nudged_tunnel))).
Proof.
  cbv zeta. split; [reflexivity|]. split; [reflexivity|].
  intros H. eapply (Forall_lookup_1 _ _ 0%nat) in H;
    [|vm_compute; reflexivity].
  vm_compute in H. discriminate H.
Qed.

(** C7 as stated fails: with a maximal radius of 360 pixels and a radius of
    0.33 the base radius 237.6 is truncated to 237, so the radius handed on
    is 236.9375 and not 237.5375, and the arcs are drawn with radius 236
    and not 237. *)
Lemma radii_not_exact :
  let handed := display_radii stage narrow_tunnel 0 in
  let worded := spec_radii stage narrow_tunnel 0 in
  frame_ellipse_adjust steady_update steady_value narrow_tunnel = 0%Q /\
  (snd (fst handed) == 379100 # 1600)%Q /\
  (snd (fst worded) == 380060 # 1600)%Q /\
  snd (stage_display 255 true narrow_tunnel) <>
  draw_segments_with_animations steady_value steady_value_vector ramp_vector
    stage (fst (stage_display 255 true narrow_tunnel))
    (fst (fst worded)) (snd (fst worded)) (segs narrow_tunnel) true 255
    (snd worded).
Proof.
  cbv zeta. repeat split; try reflexivity.
  intros H. apply (f_equal (fun r => dc_rad_y <$> emitted r !! 0%nat)) in H.
  vm_compute in H. discriminate H.
Qed.


(** The amended C3 at work: 126 segments, blacking 2. *)
Lemma display_no_division_fault_witness :
  segs routed_tunnel <> 0 /\
  1 <= blacking_divisor (blacking routed_tunnel) /\
  (forall i, np_mod i (blacking_divisor (blacking routed_tunnel))
             = i mod blacking_divisor (blacking routed_tunnel)) /\
  exists cmds, snd (stage_display 255 false routed_tunnel) = Ok cmds.
Proof.
  assert (H : segs routed_tunnel <> 0) by (vm_compute; discriminate).
  split; [exact H|].
  exact (display_no_division_fault steady_update steady_value
           steady_value_vector ramp_vector stage 255 false routed_tunnel H).
Defined.




(** C10 at work: the same tunnel drawn as a mask and in colour. *)
Lemma mask_flag_keeps_geometry_witness :
  (forall s angles,
     length (steady_value_vector s angles) = length angles) /\
  (forall angles smoothing,
     length (ramp_vector angles smoothing) = length angles) /\
  length (emitted (snd (stage_display 255 true radius_pair_tunnel))) = 63%nat
  /\
  length (emitted (snd (stage_display 100 false radius_pair_tunnel)))
  = 63%nat /\
  map arc_geometry
    (emitted (snd (stage_display 255 true radius_pair_tunnel))) =
  map arc_geometry
    (emitted (snd (stage_display 100 false radius_pair_tunnel))).
Proof.
  split; [exact steady_value_vector_length|].
  split; [exact ramp_vector_length|].
  destruct (mask_flag_keeps_geometry steady_update steady_value
              steady_value_vector ramp_vector stage
              steady_value_vector_length ramp_vector_length
              radius_pair_tunnel 255 100) as [Hlen Hgeo].
  split; [vm_compute; reflexivity|].
  split; [rewrite <- Hlen; vm_compute; reflexivity | exact Hgeo].
Defined.

(** X1 at work: a tunnel nudged to (1000, -1000) is brought back to the
    limits (640, -360) of the stage. *)
Lemma display_offsets_clamped_witness :
  (0 <= max_x_offset stage /\ 0 <= max_y_offset stage) /\
  (x_offset offstage_tunnel = 1000 /\ y_offset offstage_tunnel = -1000) /\
  (x_offset (fst (stage_display 255 false offstage_tunnel)) = 640 /\
   y_offset (fst (stage_display 255 false offstage_tunnel)) = -360) /\
  (- 640 <= x_offset (fst (stage_display 255 false offstage_tunnel)) <= 640)
  /\
  (- 360 <= y_offset (fst (stage_display 255 false offstage_tunnel)) <= 360).
Proof.
  assert (Hx : 0 <= max_x_offset stage) by (cbn; lia).
  assert (Hy : 0 <= max_y_offset stage) by (cbn; lia).
  split; [split; assumption|]. split; [split; reflexivity|].
  split; [split; reflexivity|].
  destruct (display_offsets_clamped steady_update steady_value
              steady_value_vector ramp_vector stage 255 false
              offstage_tunnel Hx Hy) as (Hxr & Hyr & _).
  split; [exact Hxr | exact Hyr].
Defined.

(** X5 at work: a segment count of -3. *)
Lemma negative_segs_draw_nothing_witness :
  segs backward_tunnel < 0 /\
  snd (stage_display 255 false backward_tunnel) = Ok [].
Proof.
  assert (H : segs backward_tunnel < 0) by reflexivity.
  split; [exact H|].
  exact (negative_segs_draw_nothing steady_update steady_value
           steady_value_vector ramp_vector stage 255 false backward_tunnel
           H).
Defined.

(** X6 at work: 126 segments, blacking 2. *)
Lemma display_draws_selected_witness :
  segs routed_tunnel <> 0 /\
  length (select_segments (blacking routed_tunnel) (segs routed_tunnel))
  = 63%nat /\
  map dc_start (emitted (snd (stage_display 255 false routed_tunnel))) =
  map (fun i =>
         (TWOPI / inject_Z (segs routed_tunnel) * inject_Z i
          + curr_angle (fst (stage_display 255 false routed_tunnel)))%Q)
    (select_segments (blacking routed_tunnel) (segs routed_tunnel)) /\
  length (emitted (snd (stage_display 255 false routed_tunnel))) =
  length (select_segments (blacking routed_tunnel) (segs routed_tunnel)) /\
  (length (emitted (snd (stage_display 255 false routed_tunnel)))
   <= Z.to_nat (segs routed_tunnel))%nat.
Proof.
  assert (H : segs routed_tunnel <> 0) by (vm_compute; discriminate).
  split; [exact H|]. split; [vm_compute; reflexivity|].
  exact (display_draws_selected steady_update steady_value
           steady_value_vector ramp_vector stage steady_value_vector_length
           ramp_vector_length 255 false routed_tunnel H).
Defined.

(** X7 at work: 126 segments with blacking 2 give 63 arcs. *)
Lemma display_arc_count_witness :
  0 < segs routed_tunnel /\
  Z.of_nat (length (emitted (snd (stage_display 255 false routed_tunnel))))
  = 63.
Proof.
  assert (H : 0 < segs routed_tunnel) by reflexivity.
  split; [exact H|].
  exact (display_arc_count steady_update steady_value steady_value_vector
           ramp_vector stage steady_value_vector_length ramp_vector_length
           255 false routed_tunnel H).
Defined.


(** X9 at work: two Thickness channels sampling to 127 and -381 sum to
    -254, which turns the stroke weight into its opposite; the absolute
    value brings it back. *)
Lemma arc_stroke_and_radii_witness :
  exists c t r,
    emitted (snd (stage_display 255 false lively_tunnel)) !! 0%nat = Some c /\
    (t == -254)%Q /\ (r == 3)%Q /\
    dc_stroke c =
      Qabs (snd (display_radii stage lively_tunnel
                   (frame_ellipse_adjust steady_update steady_value
                      lively_tunnel)) * (1 + t / 127))%Q /\
    dc_rad_x c =
      py_int (Qabs (fst (fst (display_radii stage lively_tunnel
                                (frame_ellipse_adjust steady_update
                                   steady_value lively_tunnel))) + r)) /\
    dc_rad_y c =
      py_int (Qabs (snd (fst (display_radii stage lively_tunnel
                                (frame_ellipse_adjust steady_update
                                   steady_value lively_tunnel))) + r)).
Proof.
  destruct (emitted (snd (stage_display 255 false lively_tunnel)) !! 0%nat)
    as [c|] eqn:Hc; [|vm_compute in Hc; discriminate Hc].
  destruct (arc_stroke_and_radii steady_update steady_value
              steady_value_vector ramp_vector stage 255 false lively_tunnel
              0%nat c Hc) as (t & r & Ht & Hr & Hs & Hx & Hy).
  exists c, t, r. split; [reflexivity|].
  split; [vm_compute in Ht; injection Ht as <-; reflexivity|].
  split; [vm_compute in Hr; injection Hr as <-; reflexivity|].
  split; [exact Hs|]. split; [exact Hx | exact Hy].
Defined.

(** X10 at work: a ColorSaturation channel sampling to 20 over a colour
    saturation of 0. *)
Lemma colour_arc_level_value_saturation_witness :
  exists c,
    emitted (snd (stage_display 200 false lively_tunnel)) !! 0%nat = Some c /\
    dc_level c = 200 /\ dc_val c = 255 /\ (dc_sat c == 20)%Q.
Proof.
  destruct (emitted (snd (stage_display 200 false lively_tunnel)) !! 0%nat)
    as [c|] eqn:Hc; [|vm_compute in Hc; discriminate Hc].
  destruct (colour_arc_level_value_saturation steady_update steady_value
              steady_value_vector ramp_vector stage 200 lively_tunnel
              0%nat c Hc) as (Hl & Hv & s & Hs & Hsat).
  exists c. split; [reflexivity|]. split; [exact Hl|]. split; [exact Hv|].
  rewrite Hsat. vm_compute in Hs. injection Hs as <-. reflexivity.
Defined.

(** X13 at work: a tunnel with channels on Thickness, Radius and
    ColorSaturation, nudged off the stage and reset. *)
Lemma reset_centres_beam_witness :
  let ui := TunnelUI_init stage (with_offsets lively_tunnel 1000 (-1000)) in
  (0 <= max_x_offset stage /\ 0 <= max_y_offset stage) /\
  Forall (fun anim => target anim <> PositionX /\ target anim <> PositionY)
    (anims (model ui)) /\
  length
    (emitted (snd (stage_display 255 false (model (reset_beam_position ui)))))
  = 63%nat /\
  Forall (fun c => dc_x c = 640 /\ dc_y c = 360)
    (emitted (snd (stage_display 255 false (model (reset_beam_position ui))))).
Proof.
  cbv zeta.
  assert (Hx : 0 <= max_x_offset stage) by (cbn; lia).
  assert (Hy : 0 <= max_y_offset stage) by (cbn; lia).
  assert (Hanims :
    Forall (fun anim : Animation Q =>
              target anim <> PositionX /\ target anim <> PositionY)
      (anims (model (TunnelUI_init stage
                       (with_offsets lively_tunnel 1000 (-1000))))))
    by (cbn; repeat (constructor; [split; discriminate|]); constructor).
  split; [split; assumption|]. split; [exact Hanims|].
  split; [vm_compute; reflexivity|].
  exact (reset_centres_beam steady_update steady_value steady_value_vector
           ramp_vector stage 255 false _ Hx Hy Hanims).
Defined.

(** X14 at work: the last of four channels replaced through index -1. *)
Lemma replace_then_get_animation_witness :
  - Z.of_nat (length (anims lively_tunnel)) <= -1
    < Z.of_nat (length (anims lively_tunnel)) /\
  exists self',
    replace_current_animation (-1) (mkAnimation Color 1%Q) lively_tunnel
    = Returns self' /\
    get_current_animation (-1) self' = Returns (mkAnimation Color 1%Q) /\
    get_animation self' 3 = Returns (mkAnimation Color 1%Q) /\
    get_animation self' 0 = get_animation lively_tunnel 0.
Proof.
  assert (H : - Z.of_nat (length (anims lively_tunnel)) <= -1
              < Z.of_nat (length (anims lively_tunnel))) by (cbn; lia).
  split; [exact H|].
  destruct (replace_then_get_animation (-1) (mkAnimation Color 1%Q)
              lively_tunnel H) as (self' & Hset & Hget & _ & Hrest & _).
  exists self'. split; [exact Hset|]. split; [exact Hget|].
  split.
  - vm_compute in Hset. injection Hset as <-. reflexivity.
  - apply Hrest. vm_compute. discriminate.
Defined.

(** * Observed properties ([tunnelz/ui.py])

    An object is the finite map of its attributes.  A set ([WeakSet], [set])
    is the list of its members in the order the loop visits them.  A
    controller is anything with named callbacks: [has_callback c name] says
    whether [getattr(c, name)] finds one; a callback that is found is taken
    to return, and its call is recorded. *)

Section UserInterfaceModel.

Context {V K C : Type}.
Variable has_callback : C -> string -> bool.

(** What a method does that its caller can see besides its result: the
    line [UiModelProperty.__set__] prints and the callbacks called. *)
Inductive Effect : Type :=
  | Print (attribute : string) (val : V)
  | Call (controller : C) (method : string) (val : V) (kwargs : K).

(** [for controller in controllers: getattr(controller, method)(val,
    **kwargs)], the loop of lines 16-17, 31-32, 74-75, 80-81 and 84-85. *)
Fixpoint update_controllers (controllers : list C) (method : string)
    (val : V) (kwargs : K) : list Effect * outcome unit :=
  match controllers with
  | [] => ([], Returns tt)
  | c :: rest =>
      if has_callback c method then
        let '(calls, r) := update_controllers rest method val kwargs in
        (Call c method val kwargs :: calls, r)
      else ([], Raises AttributeError)
  end.

(** [UiProperty] (lines 5-17): the value lives in the descriptor. *)
Record UiProperty : Type := mkUiProperty {
  val : V;
  up_callback_name : string;
  up_kwargs : K
}.

(** [UiModelProperty] (lines 19-32). *)
Record UiModelProperty : Type := mkUiModelProperty {
  attribute : string;
  callback_name : string;
  kwargs : K
}.

(** [UiModelProperty.__init__]: the callback is named after the attribute
    unless a name is given. *)
Definition UiModelProperty_init (attribute0 : string)
    (callback_name0 : option string) (kwargs0 : K) : UiModelProperty :=
  mkUiModelProperty attribute0
    (match callback_name0 with Some name => name | None => attribute0 end)
    kwargs0.

(** [UserInterface] (lines 56-85): the model, the controllers, and the two
    sets the metaclass attaches to the class. *)
Record UserInterface : Type := mkUserInterface {
  ui_model : gmap string V;
  controllers : list C;
  model_properties : list UiModelProperty;
  ui_properties : list UiProperty
}.

Definition UiProperty_get (prop : UiProperty) (obj : UserInterface) : V :=
  val prop.

Definition UiProperty_set (prop : UiProperty) (obj : UserInterface)
    (val0 : V) : UiProperty * list Effect * outcome unit :=
  let prop' := mkUiProperty val0 (up_callback_name prop) (up_kwargs prop) in
  let '(calls, r) :=
    update_controllers (controllers obj) (up_callback_name prop) val0
      (up_kwargs prop) in
  (prop', calls, r).

Definition UiModelProperty_get (prop : UiModelProperty)
    (obj : UserInterface) : outcome V :=
  match ui_model obj !! attribute prop with
  | Some v => Returns v
  | None => Raises AttributeError
  end.

Definition UiModelProperty_set (prop : UiModelProperty)
    (obj : UserInterface) (val0 : V)
    : UserInterface * list Effect * outcome unit :=
  let obj' :=
    mkUserInterface (<[attribute prop := val0]> (ui_model obj))
      (controllers obj) (model_properties obj) (ui_properties obj) in
  let '(calls, r) :=
    update_controllers (controllers obj) (callback_name prop) val0
      (kwargs prop) in
  (obj', Print (attribute prop) val0 :: calls, r).

(** The first loop of [UserInterface.initialize] (lines 78-81). *)
Fixpoint initialize_model_properties (props : list UiModelProperty)
    (obj : UserInterface) : list Effect * outcome unit :=
  match props with
  | [] => ([], Returns tt)
  | prop :: rest =>
      match ui_model obj !! attribute prop with
      | None => ([], Raises AttributeError)
      | Some v =>
          match update_controllers (controllers obj) (callback_name prop) v
                  (kwargs prop) with
          | (calls, Returns _) =>
              let '(calls', r) := initialize_model_properties rest obj in
              (calls ++ calls', r)
          | (calls, Raises e) => (calls, Raises e)
          end
      end
  end.

(** The second loop (lines 82-85). *)
Fixpoint initialize_ui_properties (props : list UiProperty)
    (obj : UserInterface) : list Effect * outcome unit :=
  match props with
  | [] => ([], Returns tt)
  | prop :: rest =>
      match update_controllers (controllers obj) (up_callback_name prop)
              (val prop) (up_kwargs prop) with
      | (calls, Returns _) =>
          let '(calls', r) := initialize_ui_properties rest obj in
          (calls ++ calls', r)
      | (calls, Raises e) => (calls, Raises e)
      end
  end.

(** [UserInterface.initialize]. *)
Definition initialize (obj : UserInterface) : list Effect * outcome unit :=
  match initialize_model_properties (model_properties obj) obj with
  | (calls, Returns _) =>
      let '(calls', r) := initialize_ui_properties (ui_properties obj) obj in
      (calls ++ calls', r)
  | (calls, Raises e) => (calls, Raises e)
  end.

(** [UserInterface.swap_model] (lines 67-70). *)
Definition swap_model (obj : UserInterface) (model0 : gmap string V)
    : UserInterface * list Effect * outcome unit :=
  let obj' :=
    mkUserInterface model0 (controllers obj) (model_properties obj)
      (ui_properties obj) in
  let '(calls, r) := initialize obj' in
  (obj', calls, r).

(** ** Setting an observed model attribute *)

Lemma update_controllers_all (cs : list C) (method : string) (v : V)
    (kw : K) :
  Forall (fun c => has_callback c method = true) cs ->
  update_controllers cs method v kw =
  (map (fun c => Call c method v kw) cs, Returns tt).
Proof.
  induction 1 as [|c cs Hc _ IH]; [reflexivity|].
  cbn [update_controllers]. rewrite Hc, IH. reflexivity.
Qed.

Lemma update_controllers_stops (before after : list C) (c : C)
    (method : string) (v : V) (kw : K) :
  Forall (fun c => has_callback c method = true) before ->
  has_callback c method = false ->
  update_controllers (before ++ c :: after) method v kw =
  (map (fun c => Call c method v kw) before, Raises AttributeError).
Proof.
  intros Hbefore Hc. induction Hbefore as [|b before Hb _ IH].
  - cbn. rewrite Hc. reflexivity.
  - cbn [app update_controllers]. rewrite Hb, IH. reflexivity.
Qed.

(** X16.  Setting an observed model attribute writes the model before any
    controller is called, whether or not the notification then raises:
    reading the property back returns the value set, every other attribute
    is as before, and the controllers are the same. *)
Theorem model_property_set_then_get (prop : UiModelProperty)
    (obj : UserInterface) (v : V) :
  let obj' := fst (fst (UiModelProperty_set prop obj v)) in
  UiModelProperty_get prop obj' = Returns v /\
  (forall name, name <> attribute prop ->
                ui_model obj' !! name = ui_model obj !! name) /\
  controllers obj' = controllers obj.
Proof.
  cbv zeta. unfold UiModelProperty_set, UiModelProperty_get.
  destruct (update_controllers _ _ _ _) as [calls r]. cbn.
  rewrite lookup_insert_eq. split; [reflexivity|]. split; [|reflexivity].
  intros name Hname. apply lookup_insert_ne. congruence.
Qed.

(** X17.  When every controller has the property's callback, setting the
    property prints once and then calls that callback once on every
    controller, in order, with the value set and the property's keyword
    arguments, and returns. *)
Theorem model_property_set_notifies_all (prop : UiModelProperty)
    (obj : UserInterface) (v : V) :
  Forall (fun c => has_callback c (callback_name prop) = true)
    (controllers obj) ->
  snd (fst (UiModelProperty_set prop obj v)) =
    Print (attribute prop) v
    :: map (fun c => Call c (callback_name prop) v (kwargs prop))
         (controllers obj) /\
  snd (UiModelProperty_set prop obj v) = Returns tt.
Proof.
  intros Hall. unfold UiModelProperty_set.
  rewrite update_controllers_all by exact Hall. split; reflexivity.
Qed.

(** X18.  When a controller lacks the property's callback, setting the
    property raises [AttributeError] at that controller: the controllers
    before it have been called, those after it are not, and the model
    attribute is set all the same. *)
Theorem model_property_set_stops_at_missing (prop : UiModelProperty)
    (obj : UserInterface) (v : V) (before after : list C) (c : C) :
  controllers obj = before ++ c :: after ->
  Forall (fun c => has_callback c (callback_name prop) = true) before ->
  has_callback c (callback_name prop) = false ->
  snd (UiModelProperty_set prop obj v) = Raises AttributeError /\
  snd (fst (UiModelProperty_set prop obj v)) =
    Print (attribute prop) v
    :: map (fun c => Call c (callback_name prop) v (kwargs prop)) before /\
  ui_model (fst (fst (UiModelProperty_set prop obj v))) !! attribute prop
  = Some v.
Proof.
  intros Hcs Hbefore Hc. unfold UiModelProperty_set. rewrite Hcs.
  rewrite update_controllers_stops by assumption. cbn.
  rewrite lookup_insert_eq. repeat split; reflexivity.
Qed.

(** ** Initializing the controllers *)

Lemma initialize_model_properties_all (props : list UiModelProperty)
    (obj : UserInterface) :
  Forall
    (fun p =>
       is_Some (ui_model obj !! attribute p) /\
       Forall (fun c => has_callback c (callback_name p) = true)
         (controllers obj))
    props ->
  initialize_model_properties props obj =
  (props ≫= (fun p =>
     match ui_model obj !! attribute p with
     | Some v =>
         map (fun c => Call c (callback_name p) v (kwargs p))
           (controllers obj)
     | None => []
     end),
   Returns tt).
Proof.
  induction 1 as [|p props [[v Hv] Hcs] _ IH]; [reflexivity|].
  cbn [initialize_model_properties]. rewrite Hv.
  rewrite update_controllers_all by exact Hcs. rewrite IH.
  cbn. rewrite Hv. reflexivity.
Qed.

Lemma initialize_ui_properties_all (props : list UiProperty)
    (obj : UserInterface) :
  Forall
    (fun p =>
       Forall (fun c => has_callback c (up_callback_name p) = true)
         (controllers obj))
    props ->
  initialize_ui_properties props obj =
  (props ≫= (fun p =>
     map (fun c => Call c (up_callback_name p) (val p) (up_kwargs p))
       (controllers obj)),
   Returns tt).
Proof.
  induction 1 as [|p props Hcs _ IH]; [reflexivity|].
  cbn [initialize_ui_properties].
  rewrite update_controllers_all by exact Hcs. rewrite IH. reflexivity.
Qed.

Lemma length_bind_const {A B : Type} (f : A -> list B) (n : nat)
    (l : list A) :
  Forall (fun a => length (f a) = n) l ->
  length (l ≫= f) = (length l * n)%nat.
Proof.
  induction 1 as [|a l Ha _ IH]; [reflexivity|].
  cbn. rewrite length_app, Ha, IH. reflexivity.
Qed.

(** X19.  When the model has the attribute of every model property and
    every controller has every callback, [initialize] returns after calling
    each controller once for each property: with the model's current value
    for a model property, with the stored value for a UI property.  It
    prints nothing. *)
Theorem initialize_notifies_everything (obj : UserInterface) :
  Forall
    (fun p =>
       is_Some (ui_model obj !! attribute p) /\
       Forall (fun c => has_callback c (callback_name p) = true)
         (controllers obj))
    (model_properties obj) ->
  Forall
    (fun p =>
       Forall (fun c => has_callback c (up_callback_name p) = true)
         (controllers obj))
    (ui_properties obj) ->
  snd (initialize obj) = Returns tt /\
  length (fst (initialize obj)) =
    ((length (model_properties obj) + length (ui_properties obj))
     * length (controllers obj))%nat /\
  (forall p c v,
     p ∈ model_properties obj -> c ∈ controllers obj ->
     ui_model obj !! attribute p = Some v ->
     Call c (callback_name p) v (kwargs p) ∈ fst (initialize obj)) /\
  (forall p c,
     p ∈ ui_properties obj -> c ∈ controllers obj ->
     Call c (up_callback_name p) (val p) (up_kwargs p)
     ∈ fst (initialize obj)) /\
  (forall name v, Print name v ∉ fst (initialize obj)).
Proof.
  intros Hmodel Hui. unfold initialize.
  rewrite initialize_model_properties_all by exact Hmodel.
  rewrite initialize_ui_properties_all by exact Hui.
  cbn [fst snd]. split; [reflexivity|]. split; [|split; [|split]].
  - rewrite length_app, Nat.mul_add_distr_r. f_equal.
    + apply length_bind_const. eapply Forall_impl; [exact Hmodel|].
      intros p [[v ->] _]. apply length_map.
    + apply length_bind_const. apply Forall_forall. intros p _.
      apply length_map.
  - intros p c v Hp Hc Hv. apply elem_of_app. left.
    apply list_elem_of_bind. exists p. split; [|exact Hp].
    rewrite Hv. apply list_elem_of_fmap. exists c. split; [reflexivity|].
    exact Hc.
  - intros p c Hp Hc. apply elem_of_app. right.
    apply list_elem_of_bind. exists p. split; [|exact Hp].
    apply list_elem_of_fmap. exists c. split; [reflexivity|]. exact Hc.
  - intros name v Hin. apply elem_of_app in Hin.
    destruct Hin as [Hin | Hin]; apply list_elem_of_bind in Hin;
      destruct Hin as (p & Hin & _).
    + destruct (ui_model obj !! attribute p);
        [|apply elem_of_nil in Hin; exact Hin].
      apply list_elem_of_fmap in Hin. destruct Hin as (c & Heq & _).
      discriminate Heq.
    + apply list_elem_of_fmap in Hin. destruct Hin as (c & Heq & _).
      discriminate Heq.
Qed.

(** Every fault of [initialize] is an [AttributeError]. *)
Lemma update_controllers_raises (cs : list C) (method : string) (v : V)
    (kw : K) (e : py_error) :
  snd (update_controllers cs method v kw) = Raises e -> e = AttributeError.
Proof.
  induction cs as [|c cs IH]; [discriminate|].
  cbn [update_controllers]. destruct (has_callback c method).
  - destruct (update_controllers cs method v kw) as [calls r]. exact IH.
  - intros [= <-]. reflexivity.
Qed.

Lemma initialize_model_properties_missing (props : list UiModelProperty)
    (obj : UserInterface) :
  Exists (fun p => ui_model obj !! attribute p = None) props ->
  snd (initialize_model_properties props obj) = Raises AttributeError.
Proof.
  induction 1 as [p props Hp | p props _ IH].
  - cbn [initialize_model_properties]. rewrite Hp. reflexivity.
  - cbn [initialize_model_properties].
    destruct (ui_model obj !! attribute p) as [v|]; [|reflexivity].
    destruct (update_controllers _ _ v _) as [calls [[]|e]] eqn:Hup.
    + destruct (initialize_model_properties props obj). exact IH.
    + pose proof (update_controllers_raises _ _ _ _ e
                    ltac:(rewrite Hup; reflexivity)) as ->.
      reflexivity.
Qed.

(** X20.  Swapping in a model that lacks the attribute of some model
    property raises [AttributeError], and the model is swapped all the
    same. *)
Theorem swap_model_missing_attribute (obj : UserInterface)
    (model0 : gmap string V) :
  Exists (fun p => model0 !! attribute p = None) (model_properties obj) ->
  snd (swap_model obj model0) = Raises AttributeError /\
  ui_model (fst (fst (swap_model obj model0))) = model0.
Proof.
  intros Hmissing. unfold swap_model, initialize.
  cbn [model_properties ui_properties].
  pose proof (initialize_model_properties_missing (model_properties obj)
                (mkUserInterface model0 (controllers obj)
                   (model_properties obj) (ui_properties obj)) Hmissing)
    as Hraise.
  destruct (initialize_model_properties _ _) as [calls r].
  cbn [snd] in Hraise. subst r. split; reflexivity.
Qed.

End UserInterfaceModel.

(** ** The observer run on a concrete interface

    Values are integers, controllers are named, and no property carries
    keyword arguments.  The panel has every callback, the slider only the
    one for the thickness, and the blind controller has none. *)

Definition panel_has_callback (controller method : string) : bool :=
  if String.eqb controller "panel" then true
  else if String.eqb controller "slider" then String.eqb method "thickness"
  else false.

Definition thickness_property : @UiModelProperty unit :=
  UiModelProperty_init "thickness" None tt.

Definition radius_property : @UiModelProperty unit :=
  UiModelProperty_init "radius" (Some "set_radius") tt.

Definition level_property : @UiProperty Z unit :=
  mkUiProperty 3 "thickness" tt.

Definition tunnel_attributes : gmap string Z :=
  <["thickness" := 25]> (<["radius" := 50]> ∅).

Definition panel_ui (controllers0 : list string)
    (model_properties0 : list (@UiModelProperty unit))
    : @UserInterface Z unit string :=
  mkUserInterface tunnel_attributes controllers0 model_properties0
    [level_property].

(** X17 at work: the panel and the slider both follow the thickness. *)
Lemma model_property_set_notifies_all_witness :
  let obj := panel_ui ["panel"; "slider"] [thickness_property] in
  Forall (fun c => panel_has_callback c "thickness" = true) (controllers obj)
  /\
  snd (fst (UiModelProperty_set panel_has_callback thickness_property obj 30))
  = [Print "thickness" 30; Call "panel" "thickness" 30 tt;
     Call "slider" "thickness" 30 tt] /\
  snd (UiModelProperty_set panel_has_callback thickness_property obj 30)
  = Returns tt.
Proof.
  cbv zeta.
  assert (Hall :
    Forall
      (fun c =>
         panel_has_callback c (callback_name thickness_property) = true)
      (controllers (panel_ui ["panel"; "slider"] [thickness_property])))
    by (repeat constructor).
  split; [exact Hall|].
  exact (model_property_set_notifies_all panel_has_callback
           thickness_property _ 30 Hall).
Defined.

(** X18 at work: the blind controller stands between the panel and the
    slider, so the slider never hears of the new thickness. *)
Lemma model_property_set_stops_at_missing_witness :
  let obj := panel_ui ["panel"; "blind"; "slider"] [thickness_property] in
  panel_has_callback "blind" "thickness" = false /\
  snd (UiModelProperty_set panel_has_callback thickness_property obj 30)
  = Raises AttributeError /\
  snd (fst (UiModelProperty_set panel_has_callback thickness_property obj 30))
  = [Print "thickness" 30; Call "panel" "thickness" 30 tt] /\
  ui_model
    (fst (fst (UiModelProperty_set panel_has_callback thickness_property obj
                 30)))
  !! "thickness" = Some 30.
Proof.
  cbv zeta.
  assert (Hbefore :
    Forall
      (fun c =>
         panel_has_callback c (callback_name thickness_property) = true)
      ["panel"]) by (repeat constructor).
  assert (Hblind :
    panel_has_callback "blind" (callback_name thickness_property) = false)
    by reflexivity.
  split; [exact Hblind|].
  exact (model_property_set_stops_at_missing panel_has_callback
           thickness_property
           (panel_ui ["panel"; "blind"; "slider"] [thickness_property]) 30
           ["panel"] ["slider"] "blind" eq_refl Hbefore Hblind).
Defined.

(** X19 at work: one model property, one interface property and two
    controllers give four calls. *)
Lemma initialize_notifies_everything_witness :
  let obj := panel_ui ["panel"; "slider"] [thickness_property] in
  snd (initialize panel_has_callback obj) = Returns tt /\
  length (fst (initialize panel_has_callback obj)) = 4%nat /\
  Call "slider" "thickness" 25 tt ∈ fst (initialize panel_has_callback obj) /\
  Call "slider" "thickness" 3 tt ∈ fst (initialize panel_has_callback obj).
Proof.
  cbv zeta.
  assert (Hmodel :
    Forall
      (fun p =>
         is_Some (ui_model
                    (panel_ui ["panel"; "slider"] [thickness_property])
                  !! attribute p) /\
         Forall (fun c => panel_has_callback c (callback_name p) = true)
           (controllers
              (panel_ui ["panel"; "slider"] [thickness_property])))
      (model_properties
         (panel_ui ["panel"; "slider"] [thickness_property]))).
  { repeat constructor. exists 25. reflexivity. }
  assert (Hui :
    Forall
      (fun p =>
         Forall (fun c => panel_has_callback c (up_callback_name p) = true)
           (controllers
              (panel_ui ["panel"; "slider"] [thickness_property])))
      (ui_properties (panel_ui ["panel"; "slider"] [thickness_property])))
    by (repeat constructor).
  destruct (initialize_notifies_everything panel_has_callback _ Hmodel Hui)
    as (Hret & Hlen & Hcalls & Hcalls' & _).
  split; [exact Hret|]. split; [exact Hlen|]. split.
  - apply (Hcalls thickness_property "slider" 25);
      [left | right; left | reflexivity].
  - apply (Hcalls' level_property "slider"); [left | right; left].
Defined.

(** X20 at work: a model without a radius is swapped in all the same. *)
Lemma swap_model_missing_attribute_witness :
  let obj := panel_ui ["panel"] [thickness_property; radius_property] in
  let model0 : gmap string Z := <["thickness" := 40]> ∅ in
  model0 !! "radius" = None /\
  snd (swap_model panel_has_callback obj model0) = Raises AttributeError /\
  ui_model (fst (fst (swap_model panel_has_callback obj model0))) = model0.
Proof.
  cbv zeta.
  assert (Hmissing :
    Exists
      (fun p => (<["thickness" := 40]> ∅ : gmap string Z) !! attribute p
                = None)
      (model_properties
         (panel_ui ["panel"] [thickness_property; radius_property])))
    by (right; left; reflexivity).
  split; [reflexivity|].
  exact (swap_model_missing_attribute panel_has_callback _ _ Hmissing).
Defined.

(** * The beam matrix controller ([python_burndown/midi_controllers.py])

    A [dict] is the finite map of its items; [d[k] = v] inserts, [d[k]]
    raises [KeyError] for a missing key.  The modules [midi] and
    [beam_matrix_minder] are not among the sources: the constructor
    [NoteOnMapping] and the constants [BeamMatrixMinder.col_per_page] and
    [BeamMatrixMinder.n_rows] are parameters. *)

Section BeamMatrixModel.

Context {M : Type} `{Countable M}.
Variable NoteOnMapping : Z -> Z -> M.
Variable col_per_page : Z.
Variable n_rows : Z.

(** [_build_grid_button_map] before the final [bidict] (lines 18-23). *)
Definition grid_button_dict (page : Z) : gmap (Z * Z) M :=
  let col_offset := col_per_page * page in
  foldl
    (fun mapping row =>
       foldl
         (fun mapping column =>
            <[(row, column + col_offset) := NoteOnMapping column (row + 53)]>
              mapping)
         mapping (xrange col_per_page))
    ∅ (xrange n_rows).

(** What [bidict(mapping)] raises when two keys hold one value. *)
Inductive bidict_error : Type := ValueDuplicationError.

(** [bidict(mapping)]: the mapping itself, provided no value occurs under
    two keys. *)
Definition bidict {A B : Type} `{Countable A} `{EqDecision B}
    (mapping : gmap A B) : bidict_error + gmap A B :=
  if decide (NoDup (map snd (map_to_list mapping)))
  then inr mapping else inl ValueDuplicationError.

(** [b.inv[value]]: the key that holds [value]. *)
Definition bidict_inv {A B : Type} `{Countable A} `{EqDecision B}
    (b : gmap A B) (value : B) : outcome A :=
  match list_find (fun item => snd item = value) (map_to_list b) with
  | Some (_, item) => Returns (fst item)
  | None => Raises KeyError
  end.

(** [d[key]]. *)
Definition dict_getitem {A B : Type} `{Countable A} (d : gmap A B) (key : A)
    : outcome B :=
  match d !! key with
  | Some v => Returns v
  | None => Raises KeyError
  end.

(** [_build_grid_button_map] (lines 18-24). *)
Definition build_grid_button_map (page : Z)
    : bidict_error + gmap (Z * Z) M :=
  bidict (grid_button_dict page).

(** [BeamMatrixMidiController.column_in_range] (lines 107-112). *)
Definition column_in_range (page col : Z) : bool :=
  let col_count := col_per_page in
  let first_col := col_count * page in
  let last_col := first_col + col_count - 1 in
  (first_col <=? col) && (col <=? last_col).

(** [BeamMatrixMidiController.handle_grid_button] (lines 114-116): the row
    and column handed to [mi.grid_button_press]. *)
Definition handle_grid_button (grid_button_map : gmap (Z * Z) M)
    (mapping : M) : outcome (Z * Z) :=
  bidict_inv grid_button_map mapping.

(** The button states of [beam_matrix_minder]. *)
Inductive ButtonState : Type := ButtonEmpty | ButtonLook | ButtonBeam.

(** [button_state_value_map] (lines 89-93). *)
Definition button_state_value_map (state : ButtonState) : Z * Z :=
  match state with
  | ButtonEmpty => (0, 1)
  | ButtonLook => (1, 1)
  | ButtonBeam => (1, 2)
  end.

(** Whether [state == 2] holds of a button state; what the states are is
    not in the sources. *)
Variable state_is_2 : ButtonState -> bool.

(** [BeamMatrixMidiController.set_button_state] (lines 129-145): the
    message handed to [midi_out.send_from_mapping], if any. *)
Definition set_button_state (page : Z) (grid_button_map : gmap (Z * Z) M)
    (row column : Z) (state : ButtonState) : outcome (option (M * Z)) :=
  if negb (column_in_range page column) then Returns None else
  match dict_getitem grid_button_map (row, column) with
  | Raises e => Raises e
  | Returns control_map =>
      let '(status, color) := button_state_value_map state in
      let val0 :=
        if status =? 0 then 0
        else if status =? 1 then color * 2 + 1
        else if state_is_2 state then (color + 1) * 2
        else 0 in
      Returns (Some (control_map, val0))
  end.

(** ** The grid and its pages *)

Lemma foldl_insert_lookup {A B C : Type} `{Countable A}
    (key : C -> A) (value : C -> B) (l : list C) (m0 : gmap A B) (k : A) :
  (forall x y, x ∈ l -> y ∈ l -> key x = key y -> value x = value y) ->
  foldl (fun m x => <[key x := value x]> m) m0 l !! k =
  match list_find (fun x => key x = k) l with
  | Some (_, x) => Some (value x)
  | None => m0 !! k
  end.
Proof.
  revert m0. induction l as [|x l IH]; intros m0 Hfun; [reflexivity|].
  cbn [foldl]. rewrite IH
    by (intros y z Hy Hz; apply Hfun; right; assumption).
  cbn [list_find]. destruct (decide (key x = k)) as [<- | Hne].
  - destruct (list_find (fun y => key y = key x) l) as [[i y]|] eqn:Hfind;
      cbn.
    + apply list_find_Some in Hfind. destruct Hfind as (Hy & Hkey & _).
      f_equal. apply Hfun; [right; eapply list_elem_of_lookup_2; exact Hy
                           | left | exact Hkey].
    + apply lookup_insert_eq.
  - destruct (list_find (fun y => key y = k) l) as [[i y]|]; cbn;
      [reflexivity|]. apply lookup_insert_ne. exact Hne.
Qed.

Lemma foldl_insert_lookup_Some {A B C : Type} `{Countable A}
    (key : C -> A) (value : C -> B) (l : list C) (k : A) (v : B) :
  (forall x y, x ∈ l -> y ∈ l -> key x = key y -> x = y) ->
  foldl (fun m x => <[key x := value x]> m) (∅ : gmap A B) l !! k = Some v
  <->
  exists x, x ∈ l /\ key x = k /\ v = value x.
Proof.
  intros Hinj. rewrite foldl_insert_lookup
    by (intros x y Hx Hy Hk; f_equal; apply Hinj; assumption).
  destruct (list_find (fun x => key x = k) l) as [[i x]|] eqn:Hfind.
  - apply list_find_Some in Hfind. destruct Hfind as (Hx & Hkey & _).
    apply list_elem_of_lookup_2 in Hx. split.
    + intros [= <-]. exists x. repeat split; assumption.
    + intros (y & Hy & Hky & ->). f_equal. f_equal.
      apply Hinj; [exact Hx | exact Hy | congruence].
  - rewrite lookup_empty. split; [discriminate|].
    intros (x & Hx & Hkey & _). exfalso.
    eapply list_find_None in Hfind. rewrite Forall_forall in Hfind.
    exact (Hfind x Hx Hkey).
Qed.

Lemma foldl_nested {A B C : Type} (step : A -> B -> C -> A) (a : A)
    (rows : list B) (cols : list C) :
  foldl (fun acc row => foldl (fun acc col => step acc row col) acc cols)
    a rows =
  foldl (fun acc rc => step acc (fst rc) (snd rc)) a
    (rows ≫= fun row => map (pair row) cols).
Proof.
  revert a. induction rows as [|r rows IH]; intros a; [reflexivity|].
  cbn [foldl]. rewrite IH. cbn. rewrite foldl_app. f_equal.
  change map with (@fmap list _). rewrite foldl_fmap. reflexivity.
Qed.

Lemma column_in_range_spec (page col : Z) :
  column_in_range page col = true <->
  0 <= col - col_per_page * page < col_per_page.
Proof.
  unfold column_in_range. rewrite andb_true_iff, !Z.leb_le. lia.
Qed.

(** X21.  With a positive number of columns per page, a column is in range
    of exactly one page, the page [col div col_per_page]. *)
Theorem column_in_range_one_page (page col : Z) :
  0 < col_per_page ->
  column_in_range page col = true <-> page = col / col_per_page.
Proof.
  intros Hpos. rewrite column_in_range_spec. split.
  - intros Hcol. apply (Z.div_unique_pos col col_per_page page
                          (col - col_per_page * page)); lia.
  - intros ->. pose proof (Z.mod_pos_bound col col_per_page Hpos) as Hmod.
    rewrite Z.mod_eq in Hmod by lia. lia.
Qed.

Lemma grid_button_dict_spec (page row col : Z) (m : M) :
  grid_button_dict page !! (row, col) = Some m <->
  0 <= row < n_rows /\ column_in_range page col = true /\
  m = NoteOnMapping (col - col_per_page * page) (row + 53).
Proof.
  unfold grid_button_dict.
  rewrite (foldl_nested
             (fun mapping row column =>
                <[(row, column + col_per_page * page)
                  := NoteOnMapping column (row + 53)]> mapping)).
  rewrite (foldl_insert_lookup_Some
             (fun rc : Z * Z => (fst rc, snd rc + col_per_page * page))
             (fun rc : Z * Z => NoteOnMapping (snd rc) (fst rc + 53))).
  - rewrite column_in_range_spec. split.
    + intros ([r c] & Hin & Hkey & ->). cbn in Hkey.
      injection Hkey as -> <-.
      apply list_elem_of_bind in Hin. destruct Hin as (r' & Hin & Hr).
      apply list_elem_of_fmap in Hin. destruct Hin as (c' & [= -> ->] & Hc).
      apply elem_of_xrange in Hr. apply elem_of_xrange in Hc. cbn.
      split; [exact Hr|]. split; [lia|]. f_equal. lia.
    + intros (Hr & Hc & ->). exists (row, col - col_per_page * page).
      split; [|split; [cbn; f_equal; lia | reflexivity]].
      apply list_elem_of_bind. exists row. split; [|apply elem_of_xrange, Hr].
      apply list_elem_of_fmap. eexists. split; [reflexivity|].
      apply elem_of_xrange. exact Hc.
  - intros [r c] [r' c'] _ _ [= -> Hc]. f_equal. lia.
Qed.

(** X22.  The grid of a page holds a button for exactly the rows below
    [n_rows] and the columns in range of the page, and the button of row
    [row] and column [col] is the note with channel [col - col_per_page *
    page] and pitch [row + 0x35]. *)
Theorem grid_button_dict_lookup (page row col : Z) :
  grid_button_dict page !! (row, col) =
  if (0 <=? row) && (row <? n_rows) && column_in_range page col
  then Some (NoteOnMapping (col - col_per_page * page) (row + 53))
  else None.
Proof.
  destruct (grid_button_dict page !! (row, col)) as [m|] eqn:Hlook.
  - apply grid_button_dict_spec in Hlook. destruct Hlook as (Hr & Hc & ->).
    rewrite Hc.
    replace ((0 <=? row) && (row <? n_rows)) with true
      by (symmetry; apply andb_true_iff; rewrite Z.leb_le, Z.ltb_lt; lia).
    reflexivity.
  - destruct ((0 <=? row) && (row <? n_rows) && column_in_range page col)
      eqn:Hb; [|reflexivity].
    apply andb_true_iff in Hb. destruct Hb as [Hrow Hcol].
    apply andb_true_iff in Hrow. rewrite Z.leb_le, Z.ltb_lt in Hrow.
    assert (Hsome : grid_button_dict page !! (row, col)
                    = Some (NoteOnMapping (col - col_per_page * page)
                              (row + 53)))
      by (apply grid_button_dict_spec; repeat split;
          [lia | lia | exact Hcol]).
    congruence.
Qed.

Lemma grid_values_NoDup (page : Z) :
  (forall c p c' p', NoteOnMapping c p = NoteOnMapping c' p' ->
                     c = c' /\ p = p') ->
  NoDup (map snd (map_to_list (grid_button_dict page))).
Proof.
  intros Hinj. change map with (@fmap list _).
  apply NoDup_fmap_2_strong; [|apply NoDup_map_to_list].
  intros [[r c] m] [[r' c'] m'] Hin Hin' Hsnd. cbn in Hsnd. subst m'.
  apply elem_of_map_to_list, grid_button_dict_spec in Hin.
  apply elem_of_map_to_list, grid_button_dict_spec in Hin'.
  destruct Hin as (_ & _ & Hm), Hin' as (_ & _ & Hm').
  rewrite Hm in Hm'. apply Hinj in Hm'. destruct Hm' as [Hc Hr].
  f_equal. f_equal; lia.
Qed.

(** X23.  When distinct channel and pitch pairs make distinct notes, the
    grid of every page is a [bidict], and looking a button's note up in the
    inverse gives the button back: [handle_grid_button] presses the row and
    column the note was built for. *)
Theorem grid_button_round_trip (page row col : Z) (m : M) :
  (forall c p c' p', NoteOnMapping c p = NoteOnMapping c' p' ->
                     c = c' /\ p = p') ->
  build_grid_button_map page = inr (grid_button_dict page) /\
  (grid_button_dict page !! (row, col) = Some m ->
   handle_grid_button (grid_button_dict page) m = Returns (row, col)).
Proof.
  intros Hinj. pose proof (grid_values_NoDup page Hinj) as Hnodup. split.
  - unfold build_grid_button_map, bidict.
    destruct (decide _); [reflexivity | contradiction].
  - intros Hlook. unfold handle_grid_button, bidict_inv.
    destruct (list_find _ _) as [[i [k m']]|] eqn:Hfind.
    + apply list_find_Some in Hfind. destruct Hfind as (Hk & Hm & _).
      cbn in Hm. subst m'. apply list_elem_of_lookup_2 in Hk.
      apply elem_of_map_to_list in Hk. destruct k as [r c].
      apply grid_button_dict_spec in Hk, Hlook.
      destruct Hk as (_ & _ & Hm), Hlook as (_ & _ & Hm').
      rewrite Hm in Hm'. apply Hinj in Hm'. destruct Hm' as [Hc Hr].
      cbn. f_equal. f_equal; lia.
    + exfalso. eapply list_find_None in Hfind.
      rewrite Forall_forall in Hfind.
      apply (Hfind ((row, col), m)); [|reflexivity].
      apply elem_of_map_to_list. exact Hlook.
Qed.

(** X24.  [set_button_state] on the grid of its page sends nothing for a
    column of another page; for a column of its page and a row below
    [n_rows] it sends the button's note with value 0 for an empty button, 3
    for a look and 5 for a beam; for a column of its page and any other row
    it raises [KeyError]. *)
Theorem set_button_state_message (page row col : Z) (state : ButtonState) :
  set_button_state page (grid_button_dict page) row col state =
  if negb (column_in_range page col) then Returns None
  else if (0 <=? row) && (row <? n_rows) then
    Returns
      (Some (NoteOnMapping (col - col_per_page * page) (row + 53),
             match state with
             | ButtonEmpty => 0
             | ButtonLook => 3
             | ButtonBeam => 5
             end))
  else Raises KeyError.
Proof.
  unfold set_button_state, dict_getitem.
  destruct (column_in_range page col) eqn:Hcol; [|reflexivity]. cbn [negb].
  destruct (grid_button_dict page !! (row, col)) as [m|] eqn:Hlook.
  - apply grid_button_dict_spec in Hlook. destruct Hlook as (Hr & _ & ->).
    replace ((0 <=? row) && (row <? n_rows)) with true
      by (symmetry; apply andb_true_iff; rewrite Z.leb_le, Z.ltb_lt; lia).
    destruct state; reflexivity.
  - destruct ((0 <=? row) && (row <? n_rows)) eqn:Hrow; [|reflexivity].
    apply andb_true_iff in Hrow. rewrite Z.leb_le, Z.ltb_lt in Hrow.
    assert (Hsome : grid_button_dict page !! (row, col)
                    = Some (NoteOnMapping (col - col_per_page * page)
                              (row + 53)))
      by (apply grid_button_dict_spec; repeat split; [lia | lia | exact Hcol]).
    congruence.
Qed.

End BeamMatrixModel.

(** ** Callbacks, radio buttons and state LEDs *)

Section MidiControllerModel.

Context {M Cb Name : Type} `{Countable M} `{Countable Name}.
Variable NoteOnMapping : Z -> Z -> M.

(** [MidiController.set_callback_for_mappings] (lines 56-59), on the
    [controls] dict. *)
Definition set_callback_for_mappings (controls : gmap M Cb)
    (mappings : list M) (callback : Cb) : gmap M Cb :=
  foldl (fun controls mapping => <[mapping := callback]> controls)
    controls mappings.

(** [MidiController.add_controls] (lines 43-49): the [controls] it leaves
    and the bidirectional map it returns, or what [bidict] raises. *)
Definition add_controls (controls : gmap M Cb) (control_map : gmap Name M)
    (callback : Cb) : gmap M Cb * (bidict_error + gmap Name M) :=
  (set_callback_for_mappings controls (map snd (map_to_list control_map))
     callback,
   bidict control_map).

(** [MidiController._set_radio_button] (lines 61-64): the messages handed
    to [midi_out.send_from_mapping]. *)
Definition set_radio_button (set_value : Name) (control_map : gmap Name M)
    : list (M * Z) :=
  map (fun item =>
         (snd item, if decide (fst item = set_value) then 1 else 0))
    (map_to_list control_map).

(** The states of the beam matrix, which are also the names of its four
    state buttons ([beam_matrix_minder] is not among the sources). *)
Inductive MatrixState : Type := Idle | BeamSave | LookSave | Delete | LookEdit.

#[local] Instance MatrixState_eq_dec : EqDecision MatrixState.
Proof. solve_decision. Defined.

(** A [BeamMatrixLEDState] (lines 78-79): the named tuple pairs the field
    names, in their order, with the values given by position. *)
Definition BeamMatrixLEDState (v1 v2 v3 v4 : Z) : list (MatrixState * Z) :=
  zip [BeamSave; LookSave; LookEdit; Delete] [v1; v2; v3; v4].

(** [getattr(led_state, control)]. *)
Definition led_getattr (led_state : list (MatrixState * Z))
    (control : MatrixState) : outcome Z :=
  match list_find (fun field => fst field = control) led_state with
  | Some (_, field) => Returns (snd field)
  | None => Raises AttributeError
  end.

(** [state_to_led_state_map] (lines 81-87). *)
Definition state_to_led_state_map (state : MatrixState)
    : list (MatrixState * Z) :=
  match state with
  | Idle => BeamMatrixLEDState 0 0 0 0
  | BeamSave => BeamMatrixLEDState 2 0 0 0
  | LookSave => BeamMatrixLEDState 0 2 0 0
  | LookEdit => BeamMatrixLEDState 0 0 2 0
  | Delete => BeamMatrixLEDState 0 0 0 2
  end.

(** [BeamMatrixMidiController.control_map] (lines 71-76), as its items. *)
Definition control_map : list (MatrixState * M) :=
  [(BeamSave, NoteOnMapping 0 82); (LookSave, NoteOnMapping 0 83);
   (Delete, NoteOnMapping 0 84); (LookEdit, NoteOnMapping 0 86)].

(** [BeamMatrixMidiController.set_beam_matrix_state] (lines 121-127): the
    messages handed to [midi_out.send_from_mappings]. *)
Fixpoint led_messages (led_state : list (MatrixState * Z))
    (items : list (MatrixState * M)) : outcome (list (M * Z)) :=
  match items with
  | [] => Returns []
  | (control, mapping) :: rest =>
      match led_getattr led_state control with
      | Raises e => Raises e
      | Returns v =>
          match led_messages led_state rest with
          | Raises e => Raises e
          | Returns messages => Returns ((mapping, v) :: messages)
          end
      end
  end.

Definition set_beam_matrix_state (state : MatrixState)
    : outcome (list (M * Z)) :=
  led_messages (state_to_led_state_map state) control_map.

(** [BeamMatrixMidiController.handle_state_button] (lines 118-119): the
    control handed to [mi.state_toggle]. *)
Definition handle_state_button (mapping : M) : outcome MatrixState :=
  match list_find (fun item => snd item = mapping) control_map with
  | Some (_, item) => Returns (fst item)
  | None => Raises KeyError
  end.

Lemma set_callback_for_mappings_lookup (controls : gmap M Cb)
    (mappings : list M) (callback : Cb) (m : M) :
  set_callback_for_mappings controls mappings callback !! m =
  if decide (m ∈ mappings) then Some callback else controls !! m.
Proof.
  unfold set_callback_for_mappings. revert controls.
  induction mappings as [|x l IH]; intros controls.
  - cbn. destruct (decide (m ∈ [])) as [Hin|]; [|reflexivity].
    apply elem_of_nil in Hin. contradiction.
  - cbn [foldl]. rewrite IH.
    destruct (decide (m ∈ l)) as [Hl | Hl].
    + rewrite decide_True by (right; exact Hl). reflexivity.
    + destruct (decide (m = x)) as [-> | Hne].
      * rewrite decide_True by left. apply lookup_insert_eq.
      * rewrite decide_False
          by (intros Hin; apply elem_of_cons in Hin; tauto).
        apply lookup_insert_ne. congruence.
Qed.

(** X25.  [add_controls] registers the callback for every mapping of the
    control map and leaves every other entry of [controls] as it was; it
    does so before it builds the [bidict], so also when that raises. *)
Theorem add_controls_registers (controls : gmap M Cb)
    (control_map0 : gmap Name M) (callback : Cb) (m : M) :
  let controls' := fst (add_controls controls control_map0 callback) in
  ((exists name, control_map0 !! name = Some m) ->
   controls' !! m = Some callback) /\
  ((forall name, control_map0 !! name <> Some m) ->
   controls' !! m = controls !! m).
Proof.
  cbv zeta. unfold add_controls. cbn [fst].
  rewrite set_callback_for_mappings_lookup. split.
  - intros [name Hname]. rewrite decide_True; [reflexivity|].
    apply list_elem_of_fmap. exists (name, m). split; [reflexivity|].
    apply elem_of_map_to_list. exact Hname.
  - intros Hnone. rewrite decide_False; [reflexivity|].
    intros Hin. apply list_elem_of_fmap in Hin.
    destruct Hin as ([name m'] & -> & Hin).
    apply elem_of_map_to_list in Hin. exact (Hnone name Hin).
Qed.

(** X26.  [_set_radio_button] sends one message per control: value 1 to the
    mapping of the selected control and value 0 to the mapping of every
    other control, so no message carries 1 when the selected value is not a
    control. *)
Theorem set_radio_button_messages (set_value : Name)
    (control_map0 : gmap Name M) (m : M) :
  length (set_radio_button set_value control_map0) = size control_map0 /\
  ((m, 1) ∈ set_radio_button set_value control_map0 <->
   control_map0 !! set_value = Some m) /\
  ((m, 0) ∈ set_radio_button set_value control_map0 <->
   exists name, name <> set_value /\ control_map0 !! name = Some m).
Proof.
  unfold set_radio_button. split; [|split].
  - rewrite length_map. symmetry. apply map_size_alt || idtac.
    rewrite <- length_map_to_list. reflexivity.
  - change map with (@fmap list _). rewrite list_elem_of_fmap. split.
    + intros ([name m'] & Heq & Hin). cbn in Heq.
      apply elem_of_map_to_list in Hin.
      destruct (decide (name = set_value)) as [-> | _];
        [|discriminate Heq].
      injection Heq as ->. exact Hin.
    + intros Hsel. exists (set_value, m). split.
      * cbn. rewrite decide_True by reflexivity. reflexivity.
      * apply elem_of_map_to_list. exact Hsel.
  - change map with (@fmap list _). rewrite list_elem_of_fmap. split.
    + intros ([name m'] & Heq & Hin). cbn in Heq.
      apply elem_of_map_to_list in Hin.
      destruct (decide (name = set_value)) as [_ | Hne];
        [discriminate Heq|].
      injection Heq as ->. exists name. split; assumption.
    + intros (name & Hne & Hname). exists (name, m). split.
      * cbn. rewrite decide_False by exact Hne. reflexivity.
      * apply elem_of_map_to_list. exact Hname.
Qed.

(** X27.  In every state of the beam matrix the four state buttons get one
    message each: value 2 for the button the state is named after and value
    0 for the others, so none is lit in [Idle].  The values given by
    position in [state_to_led_state_map] agree with the field names. *)
Theorem set_beam_matrix_state_messages (state : MatrixState) :
  set_beam_matrix_state state =
  Returns
    (map (fun item =>
            (snd item, if decide (fst item = state) then 2 else 0))
       control_map).
Proof. destruct state; reflexivity. Qed.

(** X28.  When distinct pitches make distinct notes, pressing a state
    button toggles the control it is mapped from, which is never [Idle], and
    a note that is no state button raises [KeyError]. *)
Theorem state_button_round_trip (control : MatrixState) (mapping : M) :
  (forall p p', NoteOnMapping 0 p = NoteOnMapping 0 p' -> p = p') ->
  (handle_state_button mapping = Returns control <->
   (control, mapping) ∈ control_map) /\
  (handle_state_button mapping = Raises KeyError <->
   forall c, (c, mapping) ∉ control_map).
Proof.
  intros Hinj. unfold handle_state_button, control_map.
  cbn [list_find fst snd fmap option_fmap option_map prod_map id].
  assert (Hne : forall p p', p <> p' ->
                  NoteOnMapping 0 p <> NoteOnMapping 0 p')
    by (intros p p' Hp Heq; exact (Hp (Hinj _ _ Heq))).
  pose proof (Hne 82 83 ltac:(lia)). pose proof (Hne 82 84 ltac:(lia)).
  pose proof (Hne 82 86 ltac:(lia)). pose proof (Hne 83 84 ltac:(lia)).
  pose proof (Hne 83 86 ltac:(lia)). pose proof (Hne 84 86 ltac:(lia)).
  repeat destruct (decide _) as [<- | ?]; cbn;
    (split; split;
     [ intros [= <-]; rewrite !elem_of_cons; tauto
     | rewrite !elem_of_cons, elem_of_nil; intuition congruence
     | intros Heq; try discriminate Heq; intros c;
       rewrite !elem_of_cons, elem_of_nil; intuition congruence
     | intros Hnone; try reflexivity; exfalso; eapply Hnone;
       rewrite !elem_of_cons; eauto ]).
Qed.

End MidiControllerModel.

(** ** The controllers run on a concrete grid

    A note is the pair of its channel and its pitch, a page has eight
    columns and the grid five rows. *)

Definition note (channel pitch : Z) : Z * Z := (channel, pitch).

(** X21 at work: column 11 lies on page 1 of pages of eight columns. *)
Lemma column_in_range_one_page_witness :
  0 < 8 /\ column_in_range 8 1 11 = true /\ 1 = 11 / 8.
Proof.
  assert (H : 0 < 8) by reflexivity.
  split; [exact H|]. split; [|reflexivity].
  apply (column_in_range_one_page 8 1 11 H). reflexivity.
Defined.

(** X23 at work: the button of row 2 and column 11 on page 1 is the note of
    channel 3 and pitch 55, and pressing it gives the row and column
    back. *)
Lemma grid_button_round_trip_witness :
  (forall c p c' p', note c p = note c' p' -> c = c' /\ p = p') /\
  build_grid_button_map note 8 5 1 = inr (grid_button_dict note 8 5 1) /\
  grid_button_dict note 8 5 1 !! (2, 11) = Some (note 3 55) /\
  handle_grid_button (grid_button_dict note 8 5 1) (note 3 55)
  = Returns (2, 11).
Proof.
  assert (Hinj : forall c p c' p',
                   note c p = note c' p' -> c = c' /\ p = p')
    by (intros c p c' p' Heq; injection Heq as -> ->; split; reflexivity).
  assert (Hbutton : grid_button_dict note 8 5 1 !! (2, 11) = Some (note 3 55))
    by (vm_compute; reflexivity).
  split; [exact Hinj|].
  destruct (grid_button_round_trip note 8 5 1 2 11 (note 3 55) Hinj)
    as [Hbuild Hpress].
  split; [exact Hbuild|]. split; [exact Hbutton | exact (Hpress Hbutton)].
Defined.

(** X28 at work: the note of pitch 86 is the button of [LookEdit]. *)
Lemma state_button_round_trip_witness :
  (forall p p', note 0 p = note 0 p' -> p = p') /\
  handle_state_button note (note 0 86) = Returns LookEdit /\
  handle_state_button note (note 0 85) = Raises KeyError.
Proof.
  assert (Hinj : forall p p', note 0 p = note 0 p' -> p = p')
    by (intros p p' Heq; injection Heq as ->; reflexivity).
  split; [exact Hinj|]. split.
  - apply (state_button_round_trip note LookEdit (note 0 86) Hinj).
    vm_compute. repeat constructor.
  - reflexivity.
Defined.
